(** * Verification of the card editor core (tools/core.py)

    The shared editing core of the homepage-card editor: the in-memory
    card operations ([add_card], [remove_card], [reorder_card],
    [update_card], [content_preview]), the conversion to plain
    dictionaries ([card_to_dict], [cards_to_dicts]), the image listing
    ([list_images]) and the publish sequence ([git_publish]).

    Modelling conventions.
    - A Python [int] is a [Z]; a Python [str] is a [string], read as a
      sequence of code points below 256.
    - A card (a ruamel [CommentedMap]) is an insertion-ordered dictionary,
      kept as an association list whose order is the key order of the
      mapping.  Card values are the scalars and flat sequences that occur
      in the card schema.
    - The card list is a Python list that the operations mutate in place.
      Each operation is a function from the list before the call to the
      outcome of the call (a returned value or a raised exception) paired
      with the list after the call.  There the list holds its cards by
      value, which is what the code does on a list of distinct card
      objects, as [add_card] builds it.
    - A list that holds one card object at several positions is modelled
      in the module [Obj]: a list of references into a store of cards,
      with [update_card] changing the addressed object in place.
    - External commands are run through an abstract process runner that
      threads the state of the operating system and gives, for each
      process, its exit status and what it wrote on its two streams; the
      image directory is given by its entries.
    - Reading and writing the YAML file ([load_cards], [save_cards]) is
      the work of the ruamel.yaml library and is not modelled. *)

From stdpp Require Import base tactics option functions list strings sorting.
From Stdlib Require Import ZArith Lia Ascii String.

Open Scope string_scope.
Open Scope list_scope.
Open Scope Z_scope.

(** ** Python values *)

(** Scalars stored in a card: a plain [str], a ruamel
    [LiteralScalarString] (a [str] subclass dumped in literal block
    style) and a [bool]. *)
Inductive scalar : Type :=
  | SStr (s : string)
  | SLit (s : string)
  | SBool (b : bool).

Inductive value : Type :=
  | VScalar (x : scalar)
  | VSeq (items : list scalar).

Definition VStr (s : string) : value := VScalar (SStr s).
Definition VBool (b : bool) : value := VScalar (SBool b).

(** Exceptions raised by the core. The message of an [IndexError] is not
    modelled; a [CalledProcessError] carries the exit status, the command
    and the captured output streams. *)
Inductive exn : Type :=
  | IndexError
  | CalledProcessError (returncode : Z) (cmd : list string)
                       (output stderr : option string).

Inductive result (A : Type) : Type :=
  | Return (a : A)
  | Raise (e : exn).
Arguments Return {A} a.
Arguments Raise {A} e.

(** ** Insertion-ordered dictionaries *)

Module Dict.

Definition t : Type := list (string * value).

(** [d.get(k)] *)
Fixpoint get (k : string) (d : t) : option value :=
  match d with
  | [] => None
  | (k', v) :: d' => if String.eqb k k' then Some v else get k d'
  end.

(** [k in d] *)
Definition contains (k : string) (d : t) : bool :=
  match get k d with Some _ => true | None => false end.

(** [d[k] = v]: an existing key keeps its position, a new key goes
    last. *)
Fixpoint set (k : string) (v : value) (d : t) : t :=
  match d with
  | [] => [(k, v)]
  | (k', v') :: d' =>
      if String.eqb k k' then (k, v) :: d' else (k', v') :: set k v d'
  end.

(** [del d[k]], called by the source only when [k in d]. *)
Fixpoint del (k : string) (d : t) : t :=
  match d with
  | [] => []
  | (k', v') :: d' =>
      if String.eqb k k' then del k d' else (k', v') :: del k d'
  end.

Definition keys (d : t) : list string := map fst d.

End Dict.

Definition card : Type := Dict.t.

(** ** Python list primitives *)

Definition len {A} (l : list A) : Z := Z.of_nat (List.length l).

(** [l.pop(i)]: a negative index counts from the end; [None] stands for
    the [IndexError] of an index out of range. *)
Definition list_pop {A} (l : list A) (i : Z) : option (A * list A) :=
  let j := if i <? 0 then i + len l else i in
  if (0 <=? j) && (j <? len l) then
    match l !! Z.to_nat j with
    | Some x => Some (x, delete (Z.to_nat j) l)
    | None => None
    end
  else None.

(** [l.insert(i, x)]: the index is clamped to [0, len l]. *)
Definition list_insert_at {A} (l : list A) (i : Z) (x : A) : list A :=
  let j := if i <? 0 then Z.max 0 (i + len l) else Z.min i (len l) in
  take (Z.to_nat j) l ++ x :: drop (Z.to_nat j) l.

(** ** Card operations *)

(** Python truth value of a [str]. *)
Definition truthy (s : string) : bool := negb (String.eqb s "").

Definition add_card (cards : list card)
    (logo title content : string) (center partition : bool)
    : card * list card :=
  let card0 : card := [] in
  let card1 := if truthy logo then Dict.set "logo" (VStr logo) card0 else card0 in
  let card2 := if center then Dict.set "center" (VBool true) card1 else card1 in
  let card3 := if partition then Dict.set "partition" (VBool true) card2 else card2 in
  let card4 := if truthy title then Dict.set "title" (VStr title) card3 else card3 in
  let card5 :=
    if truthy content then Dict.set "content" (VSeq [SLit content]) card4
    else Dict.set "content" (VSeq [SLit ""]) card4 in
  (card5, cards ++ [card5]).

Definition remove_card (cards : list card) (index : Z)
    : result card * list card :=
  if (0 <=? index) && (index <? len cards) then
    match list_pop cards index with
    | Some (c, cards') => (Return c, cards')
    | None => (Raise IndexError, cards)
    end
  else (Raise IndexError, cards).

Definition reorder_card (cards : list card) (from_idx to_idx : Z)
    : result unit * list card :=
  if negb ((0 <=? from_idx) && (from_idx <? len cards)) then
    (Raise IndexError, cards)
  else if negb ((0 <=? to_idx) && (to_idx <? len cards)) then
    (Raise IndexError, cards)
  else
    match list_pop cards from_idx with
    | Some (c, cards') => (Return tt, list_insert_at cards' to_idx c)
    | None => (Raise IndexError, cards)
    end.

(** The field assignments of [update_card] on the addressed card; [None]
    is an argument left at its default. *)
Definition update_fields (c : card)
    (logo title content : option string) (center partition : option bool)
    : card :=
  let c1 := match logo with
            | Some l => Dict.set "logo" (VStr l) c
            | None => c
            end in
  let c2 := match title with
            | Some t =>
                if truthy t then Dict.set "title" (VStr t) c1
                else if Dict.contains "title" c1 then Dict.del "title" c1
                else c1
            | None => c1
            end in
  let c3 := match content with
            | Some s => Dict.set "content" (VSeq [SLit s]) c2
            | None => c2
            end in
  let c4 := match center with
            | Some b =>
                if b then Dict.set "center" (VBool true) c3
                else if Dict.contains "center" c3 then Dict.del "center" c3
                else c3
            | None => c3
            end in
  match partition with
  | Some b =>
      if b then Dict.set "partition" (VBool true) c4
      else if Dict.contains "partition" c4 then Dict.del "partition" c4
      else c4
  | None => c4
  end.

Definition update_card (cards : list card) (index : Z)
    (logo title content : option string) (center partition : option bool)
    : result unit * list card :=
  if negb ((0 <=? index) && (index <? len cards)) then
    (Raise IndexError, cards)
  else
    match cards !! Z.to_nat index with
    | Some c =>
        (Return tt,
         <[Z.to_nat index := update_fields c logo title content center partition]> cards)
    | None => (Raise IndexError, cards)
    end.

(** ** Cards as shared objects

    A Python list holds references to its cards, and [update_card]
    changes the addressed card in place (lines 108-127).  Two positions
    of a list can hold the same card object: [load_cards] gives such a
    list for a file in which one entry is a YAML alias of another.  Here
    a list is a list of references into a store of cards.  The values of
    a card are strings, booleans and content lists that each assignment
    builds anew; none is changed in place, so they stay plain values. *)

Module Obj.

Definition ref : Type := nat.

Definition store : Type := ref -> card.

(** The cards a list shows in a store. *)
Definition view (h : store) (cards : list ref) : list card := map h cards.

(** [update_card]: the list is left as it is; the card object it holds
    at [index] is changed in the store. *)
Definition update_card (h : store) (cards : list ref) (index : Z)
    (logo title content : option string) (center partition : option bool)
    : result unit * store :=
  if negb ((0 <=? index) && (index <? len cards)) then
    (Raise IndexError, h)
  else
    match cards !! Z.to_nat index with
    | Some r =>
        (Return tt,
         <[r := update_fields (h r) logo title content center partition]> h)
    | None => (Raise IndexError, h)
    end.

End Obj.

(** ** Well-formed cards *)

Definition text_block (x : scalar) : bool :=
  match x with
  | SLit _ => true
  | _ => false
  end.

Definition false_valued (k : string) (c : card) : bool :=
  match Dict.get k c with
  | Some (VScalar (SBool false)) => true
  | _ => false
  end.

Definition single_text_block (c : card) : bool :=
  match Dict.get "content" c with
  | Some (VSeq [x]) => text_block x
  | _ => false
  end.

(** No false-valued [center] or [partition] key, and a content that is a
    one-element sequence holding a text block. *)
Definition well_formed (c : card) : bool :=
  negb (false_valued "center" c) && negb (false_valued "partition" c)
  && single_text_block c.

Definition all_well_formed (cards : list card) : Prop :=
  Forall (fun c => well_formed c = true) cards.

(** ** Text helpers of [content_preview] *)

Definition slen (s : string) : Z := Z.of_nat (String.length s).

(** [str.isspace] on one code point, also the class [\s] of [re] on a
    [str] pattern: TAB..CR, FS..US, space, NEL and NBSP. *)
Definition isspace (c : ascii) : bool :=
  let n := N_of_ascii c in
  (((9 <=? n) && (n <=? 13)) || ((28 <=? n) && (n <=? 32))
   || (n =? 133) || (n =? 160))%N.

(** [str(x)] of a scalar. *)
Definition str (x : scalar) : string :=
  match x with
  | SStr s => s
  | SLit s => s
  | SBool true => "True"
  | SBool false => "False"
  end.

(** [sep.join(parts)] *)
Fixpoint join (sep : string) (parts : list string) : string :=
  match parts with
  | [] => ""
  | [p] => p
  | p :: rest => p +:+ sep +:+ join sep rest
  end.

(** Position of the first [">"] of a string. *)
Fixpoint find_gt (s : string) : option nat :=
  match s with
  | "" => None
  | String c t =>
      if Ascii.eqb c ">" then Some O
      else match find_gt t with Some k => Some (S k) | None => None end
  end.

(** Length of the match of the pattern [<[^>]+>] anchored at the start of
    [s]: a ["<"], a longest run of at least one character other than
    [">"], and the [">"] that ends the run. *)
Definition match_tag (s : string) : option nat :=
  match s with
  | String c0 (String c1 t) =>
      if Ascii.eqb c0 "<" && negb (Ascii.eqb c1 ">") then
        match find_gt t with Some k => Some (k + 3)%nat | None => None end
      else None
  | _ => None
  end.

(** [re.sub(r"<[^>]+>", "", s)]: matches are found left to right and do
    not overlap; [skip] counts the characters of the current match that
    are still to be passed over. *)
Fixpoint re_sub_tags_from (skip : nat) (s : string) : string :=
  match s with
  | "" => ""
  | String c t =>
      match skip with
      | S k => re_sub_tags_from k t
      | O =>
          match match_tag s with
          | Some n => re_sub_tags_from (n - 1) t
          | None => String c (re_sub_tags_from 0 t)
          end
      end
  end.

Definition re_sub_tags (s : string) : string := re_sub_tags_from 0 s.

(** [s.replace(old, new)] for a non-empty [old], with the same
    left-to-right scan. *)
Fixpoint str_replace_from (skip : nat) (old new s : string) : string :=
  match s with
  | "" => ""
  | String c t =>
      match skip with
      | S k => str_replace_from k old new t
      | O =>
          if String.prefix old s
          then new +:+ str_replace_from (String.length old - 1) old new t
          else String c (str_replace_from 0 old new t)
      end
  end.

Definition str_replace (old new s : string) : string :=
  str_replace_from 0 old new s.

Fixpoint lstrip (s : string) : string :=
  match s with
  | "" => ""
  | String c t => if isspace c then lstrip t else s
  end.

Fixpoint rstrip (s : string) : string :=
  match s with
  | "" => ""
  | String c t =>
      match rstrip t with
      | "" => if isspace c then "" else String c ""
      | r => String c r
      end
  end.

(** [s.strip()] *)
Definition strip (s : string) : string := lstrip (rstrip s).

Definition starts_space (s : string) : bool :=
  match s with
  | String c _ => isspace c
  | "" => false
  end.

(** [re.sub(r"\s+", " ", s)]: every maximal run of whitespace becomes one
    space, written when the last character of the run is reached. *)
Fixpoint re_sub_ws (s : string) : string :=
  match s with
  | "" => ""
  | String c t =>
      if isspace c then
        if starts_space t then re_sub_ws t else String " " (re_sub_ws t)
      else String c (re_sub_ws t)
  end.

(** [s[:n]]: a negative bound counts from the end. *)
Definition slice_to (s : string) (n : Z) : string :=
  let k := if n <? 0 then Z.max 0 (n + slen s) else Z.min n (slen s) in
  String.substring 0 (Z.to_nat k) s.

Definition newline : string := String "010" "".

Definition content_preview (c : card) (max_len : Z) : string :=
  let raw := match Dict.get "content" c with
             | Some v => v
             | None => VStr ""
             end in
  let text := match raw with
              | VSeq items => join " " (map str items)
              | VScalar x => str x
              end in
  let text := re_sub_tags text in
  let text := strip (str_replace newline " " (str_replace "&#x2022;" "*" text)) in
  let text := re_sub_ws text in
  if slen text >? max_len then slice_to text max_len +:+ "..." else text.

(** *** Auxiliary string functions used in the proofs *)

(** Replacing newlines by spaces, character by character. *)
Definition newline_to_space (c : ascii) : ascii :=
  if Ascii.eqb c "010" then " "%char else c.

Fixpoint string_map (f : ascii -> ascii) (s : string) : string :=
  match s with
  | "" => ""
  | String c t => String (f c) (string_map f t)
  end.

(** [s[n:]] for a natural [n]. *)
Fixpoint string_drop (n : nat) (s : string) : string :=
  match n, s with
  | S k, String _ t => string_drop k t
  | _, _ => s
  end.

(** *** The preview as the specification words it

    The steps of the specification, written on the text as a list of
    characters and without the helpers of the source above, so that the
    two can be compared. *)

Definition chars (s : string) : list ascii := list_ascii_of_string s.
Definition text (l : list ascii) : string := string_of_list_ascii l.

(** The content blocks of a card. *)
Definition content_blocks (c : card) : list string :=
  match Dict.get "content" c with
  | Some (VSeq items) => map str items
  | Some (VScalar x) => [str x]
  | None => []
  end.

(** "joins the content block(s) with spaces" *)
Definition join_blocks (c : card) : string :=
  match content_blocks c with
  | [] => ""
  | b :: rest => fold_left (fun acc x => acc +:+ " " +:+ x) rest b
  end.

Fixpoint take_while (P : ascii -> bool) (l : list ascii) : list ascii :=
  match l with
  | c :: t => if P c then c :: take_while P t else []
  | [] => []
  end.

Fixpoint drop_while (P : ascii -> bool) (l : list ascii) : list ascii :=
  match l with
  | c :: t => if P c then drop_while P t else l
  | [] => []
  end.

Definition not_gt (c : ascii) : bool := negb (Ascii.eqb c ">").

(** An angle-bracket-delimited substring at the start of [l]: a ["<"],
    one character or more up to the next [">"], and that [">"].  The
    result is the text behind it. *)
Definition tag_rest (l : list ascii) : option (list ascii) :=
  match l with
  | c :: t =>
      if Ascii.eqb c "<" then
        match take_while not_gt t, drop_while not_gt t with
        | _ :: _, _ :: behind => Some behind
        | _, _ => None
        end
      else None
  | [] => None
  end.

(** "angle-bracket-delimited substrings are removed", from left to
    right; [fuel] bounds the steps, one per character at most. *)
Fixpoint strip_tags_steps (fuel : nat) (l : list ascii) : list ascii :=
  match fuel, l with
  | S f, c :: t =>
      match tag_rest l with
      | Some behind => strip_tags_steps f behind
      | None => c :: strip_tags_steps f t
      end
  | _, _ => []
  end.

Definition strip_tags (l : list ascii) : list ascii :=
  strip_tags_steps (List.length l) l.

Definition bullet : list ascii := chars "&#x2022;".

(** "replaces a specific HTML bullet entity with [*]" *)
Fixpoint replace_bullet_steps (fuel : nat) (l : list ascii) : list ascii :=
  match fuel, l with
  | S f, c :: t =>
      if bool_decide (take (List.length bullet) l = bullet)
      then "*"%char :: replace_bullet_steps f (drop (List.length bullet) l)
      else c :: replace_bullet_steps f t
  | _, _ => []
  end.

Definition replace_bullet (l : list ascii) : list ascii :=
  replace_bullet_steps (List.length l) l.

(** "collapses all whitespace runs to single spaces": going from the
    right, a whitespace character becomes a space unless the space of its
    run is already there. *)
Definition collapse_whitespace (l : list ascii) : list ascii :=
  fold_right
    (fun c acc =>
       if isspace c then
         match acc with
         | a :: _ => if Ascii.eqb a " " then acc else " "%char :: acc
         | [] => [" "%char]
         end
       else c :: acc)
    [] l.

(** "trims": the whitespace at both ends is dropped. *)
Definition trim (l : list ascii) : list ascii :=
  drop_while isspace (rev (drop_while isspace (rev l))).

(** "truncates to [maxLen] characters appending an ellipsis marker if
    truncated" *)
Definition truncate (maxLen : nat) (s : string) : string :=
  if (maxLen <? String.length s)%nat
  then String.substring 0 maxLen s +:+ "..."
  else s.

Definition content_preview_spec (c : card) (maxLen : nat) : string :=
  truncate maxLen
    (text (trim (collapse_whitespace (replace_bullet (strip_tags
       (chars (join_blocks c))))))).

(** ** Publishing *)

(** What a process has done when it exits: its exit status and the text
    it wrote on its standard output and on its standard error. *)
Record exited : Type := Exited {
  status : Z;
  written_out : string;
  written_err : string
}.

(** The error holds the output of the process [x]. *)
Definition carries_output (e : exn) (x : exited) : Prop :=
  match e with
  | CalledProcessError _ _ output err =>
      output = Some (written_out x) /\ err = Some (written_err x)
  | IndexError => False
  end.

(** The failure of the process [x] of command [cmd], with its command,
    its exit status and its captured output, is what the caller gets. *)
Definition surfaces_with_output {A} (r : result A) (cmd : list string)
    (x : exited) : Prop :=
  exists e,
    r = Raise e /\
    match e with
    | CalledProcessError rc c _ _ => rc = status x /\ c = cmd
    | IndexError => False
    end /\
    carries_output e x.

Section Publish.

(** The state of the operating system and the process runner: [spawn
    cmd cwd w] runs [cmd] in directory [cwd] until it exits and gives
    what the process has done and the state it leaves.  A command that
    cannot be started at all is outside the model. *)
Variable World : Type.
Variable spawn : list string -> string -> World -> exited * World.
Variable SITE_ROOT : string.

(** [history] lists the commands run so far, oldest first. *)
Record os : Type := Os { world : World; history : list (list string) }.

Record CompletedProcess : Type := Completed {
  args : list string;
  returncode : Z;
  stdout : option string;
  stderr : option string
}.

Definition M (A : Type) : Type := os -> result A * os.

Definition ret {A} (a : A) : M A := fun s => (Return a, s).

Definition and_then {A B} (m : M A) (k : A -> M B) : M B :=
  fun s =>
    match m s with
    | (Return a, s') => k a s'
    | (Raise e, s') => (Raise e, s')
    end.

(** [subprocess.run(cmd, cwd=cwd, capture_output=capture_output,
    check=check)]: the streams of the process are piped and kept only
    under [capture_output]; without it they are those of the caller and
    both streams of the completed process are [None]. *)
Definition subprocess_run (cmd : list string) (cwd : string)
    (capture_output check : bool) : M CompletedProcess :=
  fun s =>
    let '(x, w) := spawn cmd cwd (world s) in
    let s' := Os w (history s ++ [cmd]) in
    let p := Completed cmd (status x)
               (if capture_output then Some (written_out x) else None)
               (if capture_output then Some (written_err x) else None) in
    if check && negb (returncode p =? 0)
    then (Raise (CalledProcessError (returncode p) (args p) (stdout p) (stderr p)), s')
    else (Return p, s').

Definition git_add : list string := ["git"; "add"; "_data/cards.yml"].
Definition git_commit (message : string) : list string :=
  ["git"; "commit"; "-m"; message].
Definition git_push : list string := ["git"; "push"].

(** The three calls leave [capture_output] at its default, [False]. *)
Definition git_publish (message : string) : M unit :=
  let cwd := SITE_ROOT in
  and_then (subprocess_run git_add cwd false true) (fun _ =>
  and_then (subprocess_run (git_commit message) cwd false true) (fun _ =>
  and_then (subprocess_run git_push cwd false true) (fun _ =>
  ret tt))).

End Publish.

Arguments Os {World} world history.
Arguments world {World} o.
Arguments history {World} o.

(** ** Plain dictionaries for JSON *)

(** The value that [card_to_dict] stores for a key: the items of a list
    become plain strings, any other value is kept as it is.  (A mapping
    does not occur as a value of a card.) *)
Definition plain_value (v : value) : value :=
  match v with
  | VSeq items => VSeq (map (fun item => SStr (str item)) items)
  | VScalar x => VScalar x
  end.

Definition card_to_dict (c : card) : Dict.t :=
  fold_left
    (fun d key =>
       match Dict.get key c with
       | Some val => Dict.set key (plain_value val) d
       | None => d
       end)
    (Dict.keys c) [].

Definition cards_to_dicts (cards : list card) : list Dict.t :=
  map card_to_dict cards.

(** ** Image listing *)

(** An entry of a directory: its name and whether it is a regular
    file. *)
Record dir_entry : Type := DirEntry { entry_name : string; is_file : bool }.

(** [sorted(names)] on strings, which Python orders by code points. *)
Definition sorted (names : list string) : list string :=
  merge_sort String.le names.

(** [list_images()], given the entries of the image directory, or [None]
    when the directory does not exist. *)
Definition list_images (assets_img : option (list dir_entry)) : list string :=
  match assets_img with
  | Some entries => sorted (map entry_name (List.filter is_file entries))
  | None => []
  end.

(** ** Shapes of a preview text *)

(** Every whitespace character of [s] is a plain space that is not
    followed by another whitespace character. *)
Fixpoint single_spaced (s : string) : bool :=
  match s with
  | "" => true
  | String c t =>
      (if isspace c then Ascii.eqb c " " && negb (starts_space t) else true)
      && single_spaced t
  end.

(** The pattern [<[^>]+>] matches nowhere in [s]. *)
Fixpoint tag_free (s : string) : bool :=
  match s with
  | "" => true
  | String _ t =>
      match match_tag s with
      | Some _ => false
      | None => tag_free t
      end
  end.

(** * Properties *)

(** ** Dictionary lookups after an update *)

Lemma get_set (k k' : string) (v : value) (d : Dict.t) :
  Dict.get k' (Dict.set k v d) =
  if String.eqb k' k then Some v else Dict.get k' d.
Proof.
  induction d as [|[k0 v0] d IH]; simpl.
  - destruct (String.eqb_spec k' k); reflexivity.
  - destruct (String.eqb_spec k k0) as [->|Hk]; simpl.
    + destruct (String.eqb k' k0); reflexivity.
    + rewrite IH. destruct (String.eqb_spec k' k0) as [->|]; [|reflexivity].
      destruct (String.eqb_spec k0 k); congruence.
Qed.

Lemma get_del (k k' : string) (d : Dict.t) :
  Dict.get k' (Dict.del k d) =
  if String.eqb k' k then None else Dict.get k' d.
Proof.
  induction d as [|[k0 v0] d IH]; simpl.
  - destruct (String.eqb k' k); reflexivity.
  - destruct (String.eqb_spec k k0) as [->|Hk]; simpl.
    + rewrite IH. destruct (String.eqb k' k0); reflexivity.
    + rewrite IH. destruct (String.eqb_spec k' k0) as [->|]; [|reflexivity].
      destruct (String.eqb_spec k0 k); congruence.
Qed.

Lemma get_del_if_present (k k' : string) (d : Dict.t) :
  Dict.get k' (if Dict.contains k d then Dict.del k d else d) =
  if String.eqb k' k then None else Dict.get k' d.
Proof.
  unfold Dict.contains. destruct (Dict.get k d) eqn:Hk.
  - apply get_del.
  - destruct (String.eqb_spec k' k) as [->|]; [assumption|reflexivity].
Qed.

Lemma contains_get (k : string) (d : Dict.t) :
  Dict.contains k d = false <-> Dict.get k d = None.
Proof. unfold Dict.contains. destruct (Dict.get k d); split; congruence. Qed.

Lemma truthy_false (s : string) : truthy s = false -> s = "".
Proof.
  unfold truthy. destruct (String.eqb_spec s ""); [trivial|discriminate].
Qed.

Lemma truthy_true (s : string) : s <> "" -> truthy s = true.
Proof.
  unfold truthy. destruct (String.eqb_spec s ""); [contradiction|trivial].
Qed.

(** *** Keys stay distinct *)

Lemma keys_set (k : string) (v : value) (d : Dict.t) :
  Dict.keys (Dict.set k v d) =
  if Dict.contains k d then Dict.keys d else Dict.keys d ++ [k].
Proof.
  unfold Dict.contains, Dict.keys.
  induction d as [|[k0 v0] d IH]; [reflexivity|]. simpl.
  destruct (String.eqb_spec k k0) as [->|Hk]; [reflexivity|]. simpl.
  rewrite IH. destruct (Dict.get k d); reflexivity.
Qed.

Lemma get_None_keys (k : string) (d : Dict.t) :
  Dict.get k d = None <-> ~ In k (Dict.keys d).
Proof.
  unfold Dict.keys. induction d as [|[k0 v0] d IH]; simpl; [tauto|].
  destruct (String.eqb_spec k k0) as [->|Hk].
  - split; [discriminate|tauto].
  - rewrite IH. split; [intros H [?|?]; [congruence|tauto]|tauto].
Qed.

Lemma keys_del_subset (k k' : string) (d : Dict.t) :
  In k' (Dict.keys (Dict.del k d)) -> In k' (Dict.keys d).
Proof.
  unfold Dict.keys. induction d as [|[k0 v0] d IH]; simpl; [tauto|].
  destruct (String.eqb k k0); simpl; tauto.
Qed.

Lemma NoDup_keys_set (k : string) (v : value) (d : Dict.t) :
  NoDup (Dict.keys d) -> NoDup (Dict.keys (Dict.set k v d)).
Proof.
  intros H. rewrite keys_set. unfold Dict.contains.
  destruct (Dict.get k d) eqn:E; [exact H|].
  apply NoDup_app. split; [exact H|]. split; [|apply NoDup_singleton].
  intros x Hx Hk. apply list_elem_of_singleton in Hk as ->.
  apply get_None_keys in E. apply E, list_elem_of_In, Hx.
Qed.

Lemma NoDup_keys_del (k : string) (d : Dict.t) :
  NoDup (Dict.keys d) -> NoDup (Dict.keys (Dict.del k d)).
Proof.
  unfold Dict.keys. induction d as [|[k0 v0] d IH]; simpl; [trivial|].
  intros H. apply NoDup_cons in H as [Hn H].
  destruct (String.eqb k k0); [apply IH, H|]. simpl.
  apply NoDup_cons. split; [|apply IH, H].
  intros Hin. apply Hn. apply list_elem_of_In.
  apply list_elem_of_In in Hin. apply (keys_del_subset k k0 d), Hin.
Qed.

(** The cards built and changed by the operations are dictionaries: no
    key occurs twice. *)
Lemma NoDup_keys_update_fields (c : card)
    (logo title content : option string) (center partition : option bool) :
  NoDup (Dict.keys c) ->
  NoDup (Dict.keys (update_fields c logo title content center partition)).
Proof.
  intros H. unfold update_fields.
  repeat match goal with
    | |- NoDup (Dict.keys (match ?o with Some _ => _ | None => _ end)) =>
        destruct o
    | |- NoDup (Dict.keys (if ?b then _ else _)) => destruct b
    | |- NoDup (Dict.keys (Dict.set _ _ _)) => apply NoDup_keys_set
    | |- NoDup (Dict.keys (Dict.del _ _)) => apply NoDup_keys_del
    end; exact H.
Qed.

Lemma NoDup_keys_new_card (cards : list card)
    (logo title content : string) (center partition : bool) :
  NoDup (Dict.keys (fst (add_card cards logo title content center partition))).
Proof.
  unfold add_card. cbn [fst].
  repeat match goal with
    | |- NoDup (Dict.keys (if ?b then _ else _)) => destruct b
    | |- NoDup (Dict.keys (Dict.set _ _ _)) => apply NoDup_keys_set
    end; constructor.
Qed.

(** The value under each key after the field assignments of
    [update_card]. *)
Lemma update_fields_get (c : card) (k : string)
    (logo title content : option string) (center partition : option bool) :
  Dict.get k (update_fields c logo title content center partition) =
  if String.eqb k "partition" then
    match partition with
    | Some true => Some (VBool true)
    | Some false => None
    | None => Dict.get "partition" c
    end
  else if String.eqb k "center" then
    match center with
    | Some true => Some (VBool true)
    | Some false => None
    | None => Dict.get "center" c
    end
  else if String.eqb k "content" then
    match content with
    | Some s => Some (VSeq [SLit s])
    | None => Dict.get "content" c
    end
  else if String.eqb k "title" then
    match title with
    | Some t => if truthy t then Some (VStr t) else None
    | None => Dict.get "title" c
    end
  else if String.eqb k "logo" then
    match logo with
    | Some l => Some (VStr l)
    | None => Dict.get "logo" c
    end
  else Dict.get k c.
Proof.
  unfold update_fields.
  destruct partition as [[]|], center as [[]|], content, title as [t|], logo;
    try destruct (truthy t);
    repeat (rewrite ?get_set, ?get_del_if_present;
            match goal with
            | |- context [String.eqb k ?s] =>
                destruct (String.eqb_spec k s) as [->|?]; simpl; try reflexivity
            end);
    try reflexivity.
Qed.

(** ** List primitives inside the index range *)

Lemma in_range_true {A} (l : list A) (i : Z) :
  0 <= i < len l -> (0 <=? i) && (i <? len l) = true.
Proof. intros. apply andb_true_iff. split; [apply Z.leb_le|apply Z.ltb_lt]; lia. Qed.

Lemma in_range_false {A} (l : list A) (i : Z) :
  i < 0 \/ len l <= i -> (0 <=? i) && (i <? len l) = false.
Proof.
  intros [H|H]; apply andb_false_iff; [left; apply Z.leb_gt|right; apply Z.ltb_ge]; lia.
Qed.

Lemma lookup_in_range {A} (l : list A) (i : Z) :
  0 <= i < len l -> exists x, l !! Z.to_nat i = Some x.
Proof.
  intros H. destruct (l !! Z.to_nat i) eqn:E; [eauto|].
  apply lookup_ge_None in E. unfold len in H. lia.
Qed.

Lemma list_pop_in_range {A} (l : list A) (i : Z) (x : A) :
  0 <= i < len l -> l !! Z.to_nat i = Some x ->
  list_pop l i = Some (x, delete (Z.to_nat i) l).
Proof.
  intros H E. unfold list_pop.
  destruct (Z.ltb_spec i 0); [lia|].
  rewrite in_range_true, E by assumption. reflexivity.
Qed.

Lemma list_insert_at_in_range {A} (l : list A) (i : Z) (x : A) :
  0 <= i <= len l ->
  list_insert_at l i x = take (Z.to_nat i) l ++ x :: drop (Z.to_nat i) l.
Proof.
  intros H. unfold list_insert_at.
  destruct (Z.ltb_spec i 0); [lia|].
  rewrite Z.min_l by lia. reflexivity.
Qed.

Lemma len_delete {A} (l : list A) (i : nat) :
  (i < List.length l)%nat -> len (delete i l) = len l - 1.
Proof.
  intros H. unfold len. rewrite length_delete by (apply lookup_lt_is_Some_2; exact H). lia.
Qed.

Lemma reinsert_same_place {A} (l : list A) (i : nat) (x : A) :
  l !! i = Some x ->
  take i (delete i l) ++ x :: drop i (delete i l) = l.
Proof.
  revert i. induction l as [|y l IH]; intros [|i] E; try discriminate.
  - injection E as ->. reflexivity.
  - cbn. f_equal. apply IH, E.
Qed.

(** ** Reordering *)

Lemma reorder_card_in_range (cards : list card) (from_idx to_idx : Z) (c : card) :
  0 <= from_idx < len cards -> 0 <= to_idx < len cards ->
  cards !! Z.to_nat from_idx = Some c ->
  reorder_card cards from_idx to_idx =
    (Return tt,
     take (Z.to_nat to_idx) (delete (Z.to_nat from_idx) cards)
       ++ c :: drop (Z.to_nat to_idx) (delete (Z.to_nat from_idx) cards)).
Proof.
  intros Hf Ht E. unfold reorder_card.
  rewrite !in_range_true by assumption. simpl.
  rewrite (list_pop_in_range _ _ c) by assumption.
  rewrite list_insert_at_in_range; [reflexivity|].
  rewrite len_delete; [lia|]. unfold len in Hf. lia.
Qed.

(** C2: with both indices valid against the original length,
    [reorder_card] removes the card at [from_idx] and puts it back at
    [to_idx] of the shortened list; moving index 0 to the last index puts
    the first card at the end, and moving an index to itself leaves the
    list as it was. *)
Theorem reorder_card_pop_then_insert
    (cards : list card) (from_idx to_idx : Z) :
  0 <= from_idx < len cards -> 0 <= to_idx < len cards ->
  exists c,
    cards !! Z.to_nat from_idx = Some c /\
    reorder_card cards from_idx to_idx =
      (Return tt,
       take (Z.to_nat to_idx) (delete (Z.to_nat from_idx) cards)
         ++ c :: drop (Z.to_nat to_idx) (delete (Z.to_nat from_idx) cards)) /\
    snd (reorder_card cards from_idx to_idx) !! Z.to_nat to_idx = Some c /\
    len (snd (reorder_card cards from_idx to_idx)) = len cards /\
    (from_idx = 0 -> to_idx = len cards - 1 ->
     reorder_card cards from_idx to_idx = (Return tt, tail cards ++ [c])) /\
    (from_idx = to_idx ->
     reorder_card cards from_idx to_idx = (Return tt, cards)).
Proof.
  intros Hf Ht.
  destruct (lookup_in_range cards from_idx Hf) as [c E].
  exists c. split; [exact E|].
  rewrite (reorder_card_in_range cards from_idx to_idx c Hf Ht E).
  assert (Hlen : List.length (delete (Z.to_nat from_idx) cards)
                 = (List.length cards - 1)%nat).
  { rewrite length_delete; [reflexivity|]. rewrite E. eauto. }
  assert (Hpos : (0 < List.length cards)%nat).
  { apply lookup_lt_Some in E. lia. }
  assert (Hto : (Z.to_nat to_idx <= List.length cards - 1)%nat).
  { unfold len in Ht. lia. }
  split; [reflexivity|]. cbn [snd]. split; [|split; [|split]].
  - rewrite lookup_app_r by (rewrite length_take; lia).
    rewrite length_take.
    replace (_ - _)%nat with O by lia. reflexivity.
  - unfold len. rewrite length_app, length_take. cbn [List.length].
    rewrite length_drop. lia.
  - intros -> ->. destruct cards as [|c0 rest]; [discriminate|].
    simpl in E. injection E as ->. simpl.
    replace (Z.to_nat (len (c :: rest) - 1)) with (List.length rest)
      by (unfold len; simpl; lia).
    rewrite firstn_all, drop_all. reflexivity.
  - intros <-. rewrite reinsert_same_place by exact E. reflexivity.
Qed.

Lemma reorder_card_pop_then_insert_witness :
  reorder_card [[("title", VStr "a")]; [("title", VStr "b")]; [("title", VStr "c")]] 0 2 =
    (Return tt, [[("title", VStr "b")]; [("title", VStr "c")]; [("title", VStr "a")]]).
Proof.
  destruct (reorder_card_pop_then_insert
              [[("title", VStr "a")]; [("title", VStr "b")]; [("title", VStr "c")]] 0 2)
    as (c & E & _ & _ & _ & H & _).
  - unfold len; simpl; lia.
  - unfold len; simpl; lia.
  - simpl in E. injection E as <-. apply H; reflexivity.
Defined.

(** ** Index errors *)

(** C5: an index outside [0, len cards) makes [update_card],
    [remove_card] and [reorder_card] (with the bad index in either
    position) raise [IndexError] and leaves the list as it was. *)
Theorem index_out_of_range_raises (cards : list card) (index : Z) :
  index < 0 \/ len cards <= index ->
  (forall logo title content center partition,
     update_card cards index logo title content center partition =
       (Raise IndexError, cards)) /\
  remove_card cards index = (Raise IndexError, cards) /\
  (forall other,
     reorder_card cards index other = (Raise IndexError, cards) /\
     reorder_card cards other index = (Raise IndexError, cards)).
Proof.
  intros H. pose proof (in_range_false cards index H) as E.
  repeat split.
  - intros. unfold update_card. rewrite E. reflexivity.
  - unfold remove_card. rewrite E. reflexivity.
  - unfold reorder_card. rewrite E. reflexivity.
  - unfold reorder_card. rewrite E.
    destruct (negb _); reflexivity.
Qed.

Lemma index_out_of_range_raises_witness :
  update_card [[("title", VStr "a")]] (-1) None (Some "t") None None None =
    (Raise IndexError, [[("title", VStr "a")]]) /\
  remove_card [[("title", VStr "a")]] 1 = (Raise IndexError, [[("title", VStr "a")]]).
Proof.
  split.
  - apply (index_out_of_range_raises [[("title", VStr "a")]] (-1)). left. lia.
  - apply (index_out_of_range_raises [[("title", VStr "a")]] 1). right.
    unfold len; simpl; lia.
Defined.

(** ** Updating a card *)

Lemma update_card_in_range (cards : list card) (index : Z) (c : card)
    (logo title content : option string) (center partition : option bool) :
  0 <= index < len cards -> cards !! Z.to_nat index = Some c ->
  update_card cards index logo title content center partition =
    (Return tt,
     <[Z.to_nat index := update_fields c logo title content center partition]> cards).
Proof.
  intros H E. unfold update_card.
  rewrite in_range_true, E by assumption. reflexivity.
Qed.

(** C3 (failing input): on a card with a logo, [update_card] with the
    empty string for [logo] stores the empty string under the key and
    does not remove it. *)
Theorem update_card_empty_logo_keeps_key :
  let cards := [[("logo", VStr "/assets/img/flower.svg");
                 ("content", VSeq [SLit "hi"])]] in
  exists c',
    update_card cards 0 (Some "") None None None None = (Return tt, [c']) /\
    Dict.contains "logo" c' = true /\
    Dict.get "logo" c' = Some (VStr "").
Proof. eexists. repeat split. Qed.

(** The same assignment on a card without a logo adds the key with the
    empty string, where [add_card] with an empty logo leaves the key
    out. *)
Example update_card_empty_logo_adds_key :
  snd (update_card [[("content", VSeq [SLit "hi"])]] 0 (Some "") None None None None)
    = [[("content", VSeq [SLit "hi"]); ("logo", VStr "")]] /\
  Dict.contains "logo" (fst (add_card [] "" "" "hi" false false)) = false.
Proof. split; reflexivity. Qed.

(** C4: for a valid index, an empty [title] removes the title key of the
    addressed card, a non-empty [title] stores it, and an absent [title]
    leaves the title entry as it was. *)
Theorem update_card_title (cards : list card) (index : Z)
    (logo title content : option string) (center partition : option bool) :
  0 <= index < len cards ->
  exists c c',
    cards !! Z.to_nat index = Some c /\
    fst (update_card cards index logo title content center partition) = Return tt /\
    snd (update_card cards index logo title content center partition)
      !! Z.to_nat index = Some c' /\
    (title = Some "" -> Dict.contains "title" c' = false) /\
    (forall t, t <> "" -> title = Some t -> Dict.get "title" c' = Some (VStr t)) /\
    (title = None -> Dict.get "title" c' = Dict.get "title" c).
Proof.
  intros H. destruct (lookup_in_range cards index H) as [c E].
  exists c, (update_fields c logo title content center partition).
  rewrite (update_card_in_range cards index c) by assumption. simpl.
  split; [exact E|]. split; [reflexivity|]. split.
  { apply list_lookup_insert_eq. eapply lookup_lt_Some, E. }
  repeat split.
  - intros ->. apply contains_get. rewrite update_fields_get. reflexivity.
  - intros t Ht ->. rewrite update_fields_get. simpl.
    rewrite truthy_true by assumption. reflexivity.
  - intros ->. rewrite update_fields_get. reflexivity.
Qed.

Lemma update_card_title_witness :
  exists c',
    snd (update_card [[("title", VStr "old"); ("content", VSeq [SLit ""])]]
           0 None (Some "") None None None) !! 0%nat = Some c' /\
    Dict.contains "title" c' = false.
Proof.
  destruct (update_card_title [[("title", VStr "old"); ("content", VSeq [SLit ""])]]
              0 None (Some "") None None None) as (c & c' & _ & _ & E & H & _).
  - unfold len; simpl; lia.
  - exists c'. split; [exact E|]. apply H. reflexivity.
Defined.

(** ** Updating a shared card *)

Lemma obj_update_card_in_range (h : Obj.store) (cards : list Obj.ref)
    (index : Z) (r : Obj.ref)
    (logo title content : option string) (center partition : option bool) :
  0 <= index < len cards -> cards !! Z.to_nat index = Some r ->
  Obj.update_card h cards index logo title content center partition =
    (Return tt,
     <[r := update_fields (h r) logo title content center partition]> h).
Proof.
  intros H E. unfold Obj.update_card.
  rewrite in_range_true, E by assumption. reflexivity.
Qed.

(** C10, as stated, fails on a list that holds one card object at two
    positions: the update at index 0 changes the card shown at index 1
    as well. *)
Lemma update_card_changes_alias :
  let h : Obj.store :=
    fun _ => [("title", VStr "a"); ("content", VSeq [SLit ""])] in
  let cards : list Obj.ref := [0%nat; 0%nat] in
  let out := Obj.update_card h cards 0 None (Some "b") None None None in
  0 <= 0 < len cards /\
  fst out = Return tt /\
  Obj.view (snd out) cards !! 1%nat <> Obj.view h cards !! 1%nat.
Proof.
  intros h cards out. split; [unfold len; simpl; lia|].
  split; [reflexivity|]. vm_compute. discriminate.
Qed.

(** C10, amended: for a valid index whose card object stands at no
    other position of the list, [update_card] changes only the card at
    that index: the length of the list and the card at every other
    position are unchanged, whatever fields are given. *)
Theorem update_card_frame_unshared (h : Obj.store) (cards : list Obj.ref)
    (index : Z)
    (logo title content : option string) (center partition : option bool) :
  0 <= index < len cards ->
  (forall j : nat, j <> Z.to_nat index -> cards !! j <> cards !! Z.to_nat index) ->
  let out := Obj.update_card h cards index logo title content center partition in
  fst out = Return tt /\
  len (Obj.view (snd out) cards) = len (Obj.view h cards) /\
  forall j : nat,
    j <> Z.to_nat index ->
    Obj.view (snd out) cards !! j = Obj.view h cards !! j.
Proof.
  intros H U. destruct (lookup_in_range cards index H) as [r E].
  rewrite (obj_update_card_in_range h cards index r) by assumption. simpl.
  split; [reflexivity|]. split.
  - unfold len, Obj.view. rewrite !length_map. reflexivity.
  - intros j Hj. unfold Obj.view. rewrite !list_lookup_fmap.
    destruct (cards !! j) as [r'|] eqn:Ej; [|reflexivity].
    cbn [fmap option_fmap option_map]. f_equal.
    apply fn_lookup_insert_ne.
    intros ->. apply (U j Hj). congruence.
Qed.

Lemma update_card_frame_unshared_witness :
  let h : Obj.store :=
    fun r => match r with
             | O => [("title", VStr "a")]
             | _ => [("title", VStr "b")]
             end in
  Obj.view
    (snd (Obj.update_card h [0%nat; 1%nat] 1
            (Some "x.png") (Some "") (Some "body") (Some true) (Some false)))
    [0%nat; 1%nat] !! 0%nat
  = Some [("title", VStr "a")].
Proof.
  intros h.
  apply (update_card_frame_unshared h [0%nat; 1%nat] 1).
  - unfold len; simpl; lia.
  - intros [|[|j]] Hj;
      [vm_compute; discriminate
      |exfalso; apply Hj; reflexivity
      |vm_compute; discriminate].
  - vm_compute. discriminate.
Defined.

(** ** Adding a card *)

(** C6: [add_card] builds the new card by the field-presence rules (logo
    and title only when non-empty, center and partition only when true,
    content always one literal block, empty when no content is given),
    appends it at the end of the list and returns it. *)
Theorem add_card_appends_new_card (cards : list card)
    (logo title content : string) (center partition : bool) :
  exists c,
    add_card cards logo title content center partition = (c, cards ++ [c]) /\
    Dict.get "logo" c = (if String.eqb logo "" then None else Some (VStr logo)) /\
    Dict.get "title" c = (if String.eqb title "" then None else Some (VStr title)) /\
    Dict.get "center" c = (if center then Some (VBool true) else None) /\
    Dict.get "partition" c = (if partition then Some (VBool true) else None) /\
    Dict.get "content" c = Some (VSeq [SLit content]) /\
    (forall k, ~ In k ["logo"; "center"; "partition"; "title"; "content"] ->
               Dict.get k c = None).
Proof.
  eexists. split; [reflexivity|].
  assert (Hc : (if truthy content then VSeq [SLit content] else VSeq [SLit ""])
               = VSeq [SLit content]).
  { destruct (truthy content) eqn:E; [reflexivity|].
    apply truthy_false in E. subst. reflexivity. }
  unfold truthy in *.
  destruct (String.eqb logo ""), (String.eqb title ""), (String.eqb content ""),
    center, partition; simpl in *;
    (repeat split; try reflexivity; try congruence;
     intros k Hk; simpl in Hk;
     repeat match goal with
       | |- context [String.eqb k ?s] =>
           destruct (String.eqb_spec k s) as [->|?]; [exfalso; tauto|]
       end; reflexivity).
Qed.

(** ** The well-formedness invariant *)

Lemma well_formed_update_fields (c : card)
    (logo title content : option string) (center partition : option bool) :
  well_formed c = true ->
  well_formed (update_fields c logo title content center partition) = true.
Proof.
  unfold well_formed, false_valued, single_text_block.
  rewrite !update_fields_get. simpl.
  destruct center as [[]|], partition as [[]|], content; simpl; try tauto;
    destruct (Dict.get "center" c) as [[[| |[]]|]|],
             (Dict.get "partition" c) as [[[| |[]]|]|];
    simpl; try tauto; try discriminate.
Qed.

Lemma well_formed_new_card (cards : list card)
    (logo title content : string) (center partition : bool) :
  well_formed (fst (add_card cards logo title content center partition)) = true.
Proof.
  unfold add_card, truthy. simpl.
  destruct (String.eqb logo ""), (String.eqb title ""), (String.eqb content ""),
    center, partition; reflexivity.
Qed.

Lemma all_well_formed_pop (cards cards' : list card) (i : Z) (c : card) :
  all_well_formed cards -> list_pop cards i = Some (c, cards') ->
  well_formed c = true /\ all_well_formed cards'.
Proof.
  unfold all_well_formed, list_pop. intros H E.
  destruct (_ && _); [|discriminate].
  destruct (cards !! _) eqn:L; [|discriminate].
  injection E as <- <-. split.
  - eapply Forall_lookup_1 in L; [exact L|exact H].
  - apply Forall_delete, H.
Qed.

Lemma all_well_formed_insert_at (cards : list card) (i : Z) (c : card) :
  all_well_formed cards -> well_formed c = true ->
  all_well_formed (list_insert_at cards i c).
Proof.
  unfold all_well_formed, list_insert_at. intros H Hc.
  apply Forall_app. split; [apply Forall_take, H|].
  apply Forall_cons. split; [exact Hc|apply Forall_drop, H].
Qed.

(** C7: if no card of the list carries a false-valued [center] or
    [partition] key and the content of every card is a one-element
    sequence of one text block, the same holds of the list left by any
    call of [add_card], [update_card], [remove_card] or [reorder_card]. *)
Theorem well_formed_preserved (cards : list card) :
  all_well_formed cards ->
  (forall logo title content center partition,
     all_well_formed (snd (add_card cards logo title content center partition))) /\
  (forall index logo title content center partition,
     all_well_formed
       (snd (update_card cards index logo title content center partition))) /\
  (forall index, all_well_formed (snd (remove_card cards index))) /\
  (forall from_idx to_idx,
     all_well_formed (snd (reorder_card cards from_idx to_idx))).
Proof.
  intros H. repeat split.
  - intros. pose proof (well_formed_new_card cards logo title content center partition) as Hc.
    unfold add_card in *. simpl in *.
    apply Forall_app. split; [exact H|]. apply Forall_cons. split; [exact Hc|constructor].
  - intros. unfold update_card.
    destruct (negb _); [exact H|].
    destruct (cards !! _) eqn:L; [|exact H]. simpl.
    apply Forall_insert; [exact H|].
    apply well_formed_update_fields.
    eapply Forall_lookup_1 in L; [exact L|exact H].
  - intros. unfold remove_card.
    destruct (_ && _); [|exact H].
    destruct (list_pop cards index) as [[c cards']|] eqn:P; [|exact H].
    apply (all_well_formed_pop _ _ _ _ H P).
  - intros. unfold reorder_card.
    destruct (negb _); [exact H|]. destruct (negb _); [exact H|].
    destruct (list_pop cards from_idx) as [[c cards']|] eqn:P; [|exact H].
    destruct (all_well_formed_pop _ _ _ _ H P). simpl.
    apply all_well_formed_insert_at; assumption.
Qed.

Lemma well_formed_preserved_witness :
  all_well_formed
    (snd (update_card [[("center", VBool true); ("content", VSeq [SLit "a"])]]
            0 (Some "") (Some "t") None (Some false) (Some true))).
Proof.
  apply (well_formed_preserved [[("center", VBool true); ("content", VSeq [SLit "a"])]]).
  repeat constructor.
Defined.

(** ** The publish sequence *)

Section PublishSteps.

Variable World : Type.
Variable spawn : list string -> string -> World -> exited * World.
Variable SITE_ROOT : string.

Lemma subprocess_run_check (cmd : list string) (cwd : string) (s : os World) :
  subprocess_run World spawn cmd cwd false true s =
  let r := spawn cmd cwd (world s) in
  let s' := Os (snd r) (history s ++ [cmd]) in
  if status (fst r) =? 0
  then (Return (Completed cmd (status (fst r)) None None), s')
  else (Raise (CalledProcessError (status (fst r)) cmd None None), s').
Proof.
  unfold subprocess_run. destruct (spawn cmd cwd (world s)) as [x w]. simpl.
  destruct (status x =? 0); reflexivity.
Qed.

(** The outcome of [git_publish] by the exit status of each step. *)
Lemma git_publish_cases (message : string) (w : World) :
  let r1 := spawn git_add SITE_ROOT w in
  let r2 := spawn (git_commit message) SITE_ROOT (snd r1) in
  let r3 := spawn git_push SITE_ROOT (snd r2) in
  git_publish World spawn SITE_ROOT message (Os w []) =
  if negb (status (fst r1) =? 0) then
    (Raise (CalledProcessError (status (fst r1)) git_add None None),
     Os (snd r1) [git_add])
  else if negb (status (fst r2) =? 0) then
    (Raise (CalledProcessError (status (fst r2)) (git_commit message) None None),
     Os (snd r2) [git_add; git_commit message])
  else if negb (status (fst r3) =? 0) then
    (Raise (CalledProcessError (status (fst r3)) git_push None None),
     Os (snd r3) [git_add; git_commit message; git_push])
  else
    (Return tt, Os (snd r3) [git_add; git_commit message; git_push]).
Proof.
  intros r1 r2 r3. unfold git_publish, and_then.
  rewrite subprocess_run_check. simpl. fold r1.
  destruct (status (fst r1) =? 0); [|reflexivity].
  rewrite subprocess_run_check. simpl. fold r2.
  destruct (status (fst r2) =? 0); [|reflexivity].
  rewrite subprocess_run_check. simpl. fold r3.
  destruct (status (fst r3) =? 0); reflexivity.
Qed.

End PublishSteps.

(** C8, as stated, fails: a commit that exits with status 1 after
    writing on both streams is raised to the caller of [git_publish]
    with its command and its exit status, but without what it wrote;
    no output is captured. *)
Lemma git_publish_output_not_surfaced :
  let spawn := fun (cmd : list string) (_ : string) (n : nat) =>
                 (if decide (cmd = git_commit "msg")
                  then Exited 1 "On branch master" "nothing to commit"
                  else Exited 0 "" "",
                  S n) in
  let x := fst (spawn (git_commit "msg") "/site" 1%nat) in
  let out := git_publish nat spawn "/site" "msg" (Os O []) in
  status x <> 0 /\
  history (snd out) = [git_add; git_commit "msg"] /\
  ~ surfaces_with_output (fst out) (git_commit "msg") x.
Proof.
  intros spawn x out. split; [vm_compute; discriminate|].
  split; [reflexivity|].
  intros (e & E & _ & C).
  assert (E' : fst out = Raise (CalledProcessError 1 (git_commit "msg") None None))
    by reflexivity.
  rewrite E' in E. injection E as <-.
  destruct C as [C _]. discriminate C.
Qed.

(** C8, amended: [git_publish] runs stage, commit and push in this
    order; a step runs only when every earlier step exited with status
    zero, so a commit that exits non-zero is never followed by the push;
    and the step that fails is raised to the caller as a
    [CalledProcessError] with its command and its exit status.  The
    output of the step is not captured: the output fields of the error
    are [None]. *)
Theorem git_publish_stops_at_first_failure
    (World : Type) (spawn : list string -> string -> World -> exited * World)
    (SITE_ROOT message : string) (w : World) :
  let r1 := spawn git_add SITE_ROOT w in
  let r2 := spawn (git_commit message) SITE_ROOT (snd r1) in
  let r3 := spawn git_push SITE_ROOT (snd r2) in
  let rc1 := status (fst r1) in
  let rc2 := status (fst r2) in
  let rc3 := status (fst r3) in
  let out := git_publish World spawn SITE_ROOT message (Os w []) in
  history (snd out) `prefix_of` [git_add; git_commit message; git_push] /\
  (In (git_commit message) (history (snd out)) -> rc1 = 0) /\
  (In git_push (history (snd out)) -> rc1 = 0 /\ rc2 = 0) /\
  (rc1 <> 0 ->
   out = (Raise (CalledProcessError rc1 git_add None None),
          Os (snd r1) [git_add])) /\
  (rc1 = 0 -> rc2 <> 0 ->
   ~ In git_push (history (snd out)) /\
   out = (Raise (CalledProcessError rc2 (git_commit message) None None),
          Os (snd r2) [git_add; git_commit message])) /\
  (rc1 = 0 -> rc2 = 0 -> rc3 <> 0 ->
   out = (Raise (CalledProcessError rc3 git_push None None),
          Os (snd r3) [git_add; git_commit message; git_push])) /\
  (rc1 = 0 -> rc2 = 0 -> rc3 = 0 ->
   out = (Return tt, Os (snd r3) [git_add; git_commit message; git_push])).
Proof.
  intros r1 r2 r3 rc1 rc2 rc3 out.
  pose proof (git_publish_cases World spawn SITE_ROOT message w) as E.
  simpl in E. fold r1 r2 r3 in E. fold rc1 rc2 rc3 out in E.
  assert (Hadd : git_commit message <> git_add) by discriminate.
  assert (Hpush1 : git_push <> git_add) by discriminate.
  assert (Hpush2 : git_push <> git_commit message) by discriminate.
  destruct (Z.eqb_spec rc1 0) as [H1|H1]; simpl in E;
    [destruct (Z.eqb_spec rc2 0) as [H2|H2]; simpl in E;
       [destruct (Z.eqb_spec rc3 0) as [H3|H3]; simpl in E|]|];
    rewrite E; simpl;
    (split; [eexists; reflexivity|]);
    repeat split; try tauto; try congruence;
    try (intros; intuition congruence).
Qed.

Lemma git_publish_stops_at_first_failure_witness :
  let spawn := fun (cmd : list string) (_ : string) (n : nat) =>
                 (if decide (cmd = git_commit "msg")
                  then Exited 1 "" "nothing to commit"
                  else Exited 0 "" "",
                  S n) in
  git_publish nat spawn "/site" "msg" (Os O []) =
    (Raise (CalledProcessError 1 (git_commit "msg") None None),
     Os 2%nat [git_add; git_commit "msg"]).
Proof.
  intros spawn.
  apply (git_publish_stops_at_first_failure nat spawn "/site" "msg" O).
  - reflexivity.
  - vm_compute. discriminate.
Defined.

(** ** Content preview *)

Lemma str_replace_newline (s : string) :
  str_replace newline " " s = string_map newline_to_space s.
Proof.
  unfold str_replace, newline.
  induction s as [|c t IH]; [reflexivity|].
  cbn [str_replace_from string_map String.prefix String.length].
  assert (P : String.prefix "" t = true) by (destruct t; reflexivity).
  unfold newline_to_space at 1.
  destruct (ascii_dec "010" c) as [<-|Hc].
  - rewrite P. cbn [Nat.sub String.append]. rewrite IH. reflexivity.
  - destruct (Ascii.eqb_spec c "010") as [->|_]; [contradiction|].
    rewrite IH. reflexivity.
Qed.

Lemma isspace_newline_to_space (c : ascii) :
  isspace (newline_to_space c) = isspace c.
Proof.
  unfold newline_to_space.
  destruct (Ascii.eqb_spec c "010") as [->|_]; reflexivity.
Qed.

Lemma newline_to_space_not_space (c : ascii) :
  isspace c = false -> newline_to_space c = c.
Proof.
  unfold newline_to_space.
  destruct (Ascii.eqb_spec c "010") as [->|_]; [discriminate|reflexivity].
Qed.

Lemma starts_space_map (s : string) :
  starts_space (string_map newline_to_space s) = starts_space s.
Proof. destruct s; [reflexivity|apply isspace_newline_to_space]. Qed.

Lemma re_sub_ws_map (s : string) :
  re_sub_ws (string_map newline_to_space s) = re_sub_ws s.
Proof.
  induction s as [|c t IH]; [reflexivity|].
  cbn [string_map re_sub_ws].
  rewrite isspace_newline_to_space, starts_space_map, IH.
  destruct (isspace c) eqn:E; [reflexivity|].
  rewrite newline_to_space_not_space by exact E. reflexivity.
Qed.

Lemma lstrip_map (s : string) :
  lstrip (string_map newline_to_space s) = string_map newline_to_space (lstrip s).
Proof.
  induction s as [|c t IH]; [reflexivity|].
  cbn [string_map lstrip]. rewrite isspace_newline_to_space.
  destruct (isspace c); [exact IH|reflexivity].
Qed.

Lemma rstrip_map (s : string) :
  rstrip (string_map newline_to_space s) = string_map newline_to_space (rstrip s).
Proof.
  induction s as [|c t IH]; [reflexivity|].
  cbn [string_map rstrip]. rewrite IH, isspace_newline_to_space.
  destruct (rstrip t); cbn [string_map]; [|reflexivity].
  destruct (isspace c); reflexivity.
Qed.

Lemma re_sub_ws_lstrip (s : string) :
  re_sub_ws (lstrip s) = lstrip (re_sub_ws s).
Proof.
  induction s as [|c t IH]; [reflexivity|].
  cbn [lstrip re_sub_ws].
  destruct (isspace c) eqn:E.
  - rewrite IH. destruct (starts_space t); reflexivity.
  - cbn [re_sub_ws lstrip]. rewrite E. reflexivity.
Qed.

Lemma rstrip_head (t r : string) (a : ascii) :
  rstrip t = String a r -> starts_space t = isspace a.
Proof.
  destruct t as [|c t]; [discriminate|].
  cbn [rstrip starts_space].
  destruct (rstrip t); [destruct (isspace c) eqn:Hc|];
    intros H; inversion H; subst; auto.
Qed.

Lemma re_sub_ws_rstrip (s : string) :
  re_sub_ws (rstrip s) = rstrip (re_sub_ws s).
Proof.
  induction s as [|c t IH]; [reflexivity|].
  cbn [rstrip re_sub_ws].
  destruct (rstrip t) as [|a r] eqn:E.
  - cbn [re_sub_ws] in IH.
    destruct (isspace c) eqn:Hc.
    + destruct (starts_space t); [exact IH|].
      cbn [rstrip]. rewrite <- IH. reflexivity.
    + cbn [re_sub_ws rstrip starts_space]. rewrite Hc, <- IH. reflexivity.
  - rewrite (rstrip_head t r a E).
    change (re_sub_ws (String c (String a r)))
      with (if isspace c
            then if isspace a then re_sub_ws (String a r)
                 else String " " (re_sub_ws (String a r))
            else String c (re_sub_ws (String a r))).
    destruct (isspace c) eqn:Hc.
    + destruct (isspace a) eqn:Ha; [exact IH|].
      cbn [rstrip]. rewrite <- IH. cbn [re_sub_ws]. rewrite Ha. reflexivity.
    + cbn [rstrip]. rewrite <- IH.
      destruct (re_sub_ws (String a r)); [rewrite Hc|]; reflexivity.
Qed.

Lemma re_sub_ws_strip (s : string) :
  re_sub_ws (strip s) = strip (re_sub_ws s).
Proof.
  unfold strip. rewrite re_sub_ws_lstrip, re_sub_ws_rstrip. reflexivity.
Qed.

(** Replacing newlines first and stripping before the runs are collapsed
    gives what collapsing first and trimming last gives. *)
Lemma collapse_after_strip (s : string) :
  re_sub_ws (strip (str_replace newline " " s)) = strip (re_sub_ws s).
Proof.
  rewrite str_replace_newline. unfold strip.
  rewrite rstrip_map, lstrip_map, re_sub_ws_map.
  apply re_sub_ws_strip.
Qed.

Lemma slice_truncate (s : string) (n : nat) :
  (if slen s >? Z.of_nat n then slice_to s (Z.of_nat n) +:+ "..." else s)
  = truncate n s.
Proof.
  unfold truncate, slice_to, slen.
  destruct (Nat.ltb_spec n (String.length s)) as [H|H].
  - destruct (Z.gtb_spec (Z.of_nat (String.length s)) (Z.of_nat n)); [|lia].
    destruct (Z.ltb_spec (Z.of_nat n) 0); [lia|].
    rewrite Z.min_l by lia. rewrite Nat2Z.id. reflexivity.
  - destruct (Z.gtb_spec (Z.of_nat (String.length s)) (Z.of_nat n)); [lia|].
    reflexivity.
Qed.

(** *** The left-to-right scans *)

Lemma re_sub_tags_from_skip (k : nat) (s : string) :
  re_sub_tags_from k s = re_sub_tags (string_drop k s).
Proof.
  revert k. induction s as [|c t IH]; intros [|k]; try reflexivity.
  cbn [re_sub_tags_from string_drop]. apply IH.
Qed.

(** Where the pattern matches, the match is dropped and the scan goes on
    behind it. *)
Lemma re_sub_tags_match (s : string) (n : nat) :
  match_tag s = Some n -> re_sub_tags s = re_sub_tags (string_drop n s).
Proof.
  intros H. destruct s as [|c t]; [discriminate|].
  assert (Hn : (1 <= n)%nat).
  { unfold match_tag in H. destruct t; [discriminate|].
    destruct (_ && _); [|discriminate].
    destruct (find_gt t); [|discriminate]. injection H as <-. lia. }
  unfold re_sub_tags at 1. cbn [re_sub_tags_from]. rewrite H.
  rewrite re_sub_tags_from_skip.
  destruct n as [|n]; [lia|]. cbn [string_drop].
  replace (S n - 1)%nat with n by lia. reflexivity.
Qed.

(** Where it does not match, the character is kept. *)
Lemma re_sub_tags_no_match (c : ascii) (t : string) :
  match_tag (String c t) = None ->
  re_sub_tags (String c t) = String c (re_sub_tags t).
Proof.
  intros H. unfold re_sub_tags. cbn [re_sub_tags_from]. rewrite H. reflexivity.
Qed.

(** A match starts with ["<"], ends with the first [">"] behind a
    non-empty run of other characters, and has no [">"] in between. *)
Lemma match_tag_shape (s : string) (n : nat) :
  match_tag s = Some n ->
  exists c body rest,
    s = String "<" (String c body) +:+ String ">" rest /\
    c <> ">"%char /\ find_gt body = None /\
    n = (String.length body + 3)%nat /\ string_drop n s = rest.
Proof.
  unfold match_tag. destruct s as [|c0 [|c1 t]]; try discriminate.
  destruct (Ascii.eqb_spec c0 "<") as [->|]; [|discriminate].
  destruct (Ascii.eqb_spec c1 ">") as [|Hc1]; [discriminate|]. simpl.
  destruct (find_gt t) as [k|] eqn:F; [|discriminate].
  intros H. injection H as <-.
  assert (G : exists body rest,
             t = body +:+ String ">" rest /\ find_gt body = None /\
             String.length body = k /\ string_drop (S k) t = rest).
  { clear Hc1. revert k F. induction t as [|a t IH]; intros k F; [discriminate|].
    simpl in F. destruct (Ascii.eqb_spec a ">") as [->|Ha].
    - injection F as <-. exists "", t. repeat split; reflexivity.
    - destruct (find_gt t) as [k'|]; [|discriminate]. injection F as <-.
      destruct (IH k' eq_refl) as (body & rest & -> & Hb & Hl & Hd).
      exists (String a body), rest. repeat split.
      + simpl. destruct (Ascii.eqb_spec a ">"); [contradiction|].
        rewrite Hb. reflexivity.
      + simpl. congruence.
      + exact Hd. }
  destruct G as (body & rest & -> & Hb & <- & Hd).
  exists c1, body, rest. repeat split; try assumption.
  replace (String.length body + 3)%nat with (S (S (S (String.length body)))) by lia.
  exact Hd.
Qed.

Lemma str_replace_from_skip (k : nat) (old new s : string) :
  str_replace_from k old new s = str_replace old new (string_drop k s).
Proof.
  revert k. induction s as [|c t IH]; intros [|k]; try reflexivity.
  cbn [str_replace_from string_drop]. apply IH.
Qed.

(** Where [old] starts, [new] is written and the scan goes on behind the
    occurrence. *)
Lemma str_replace_match (old new s : string) :
  old <> "" -> String.prefix old s = true ->
  str_replace old new s =
  new +:+ str_replace old new (string_drop (String.length old) s).
Proof.
  intros Ho H. destruct s as [|c t]; [destruct old; [contradiction|discriminate]|].
  unfold str_replace at 1. cbn [str_replace_from]. rewrite H.
  rewrite str_replace_from_skip.
  destruct old as [|a old]; [contradiction|]. cbn [String.length string_drop].
  replace (S (String.length old) - 1)%nat with (String.length old) by lia.
  reflexivity.
Qed.

Lemma str_replace_no_match (old new : string) (c : ascii) (t : string) :
  String.prefix old (String c t) = false ->
  str_replace old new (String c t) = String c (str_replace old new t).
Proof.
  intros H. unfold str_replace. cbn [str_replace_from]. rewrite H. reflexivity.
Qed.

(** An empty pair of angle brackets and an unclosed ["<"] are not tags. *)
Example re_sub_tags_not_tags :
  re_sub_tags "a<>b<c" = "a<>b<c" /\ re_sub_tags "x<<i>y</i>z" = "xyz".
Proof. split; reflexivity. Qed.

(** *** The source steps and the steps of the specification *)

Lemma append_assoc (a b c : string) : (a +:+ b) +:+ c = a +:+ (b +:+ c).
Proof.
  induction a as [|x a IH]; [reflexivity|].
  change (String x ((a +:+ b) +:+ c) = String x (a +:+ (b +:+ c))).
  rewrite IH. reflexivity.
Qed.

Lemma join_cons (sep p q : string) (rest : list string) :
  join sep (p :: q :: rest) = p +:+ sep +:+ join sep (q :: rest).
Proof. reflexivity. Qed.

Lemma join_fold_left (rest : list string) (b : string) :
  fold_left (fun acc x => acc +:+ " " +:+ x) rest b = join " " (b :: rest).
Proof.
  revert b. induction rest as [|x r IH]; intros b; [reflexivity|].
  cbn [fold_left]. rewrite IH, join_cons. destruct r as [|y r].
  - reflexivity.
  - rewrite !join_cons, !append_assoc. reflexivity.
Qed.

Lemma join_blocks_join (parts : list string) :
  match parts with
  | [] => ""
  | b :: rest => fold_left (fun acc x => acc +:+ " " +:+ x) rest b
  end = join " " parts.
Proof. destruct parts; [reflexivity|apply join_fold_left]. Qed.

Lemma chars_string_drop (n : nat) (s : string) :
  chars (string_drop n s) = drop n (chars s).
Proof.
  revert n. induction s as [|c t IH]; intros [|n]; try reflexivity.
  cbn [string_drop]. apply IH.
Qed.

Lemma length_chars (s : string) : List.length (chars s) = String.length s.
Proof. induction s as [|c t IH]; simpl; [reflexivity|]. rewrite IH. reflexivity. Qed.

Lemma length_string_drop (n : nat) (s : string) :
  String.length (string_drop n s) = (String.length s - n)%nat.
Proof.
  revert n. induction s as [|c t IH]; intros [|n]; try reflexivity.
  cbn [string_drop String.length]. rewrite IH. lia.
Qed.

Lemma chars_append (s1 s2 : string) : chars (s1 +:+ s2) = chars s1 ++ chars s2.
Proof. induction s1 as [|c t IH]; simpl; [reflexivity|]. rewrite IH. reflexivity. Qed.

Lemma chars_cons (c : ascii) (t : string) : chars (String c t) = c :: chars t.
Proof. reflexivity. Qed.

Lemma chars_empty : chars "" = [].
Proof. reflexivity. Qed.

(** **** Tags *)

Lemma drop_while_find_gt (s : string) :
  drop_while not_gt (chars s) =
  match find_gt s with
  | Some k => ">"%char :: chars (string_drop (S k) s)
  | None => []
  end.
Proof.
  induction s as [|c t IH]; [reflexivity|].
  rewrite chars_cons. cbn [drop_while find_gt]. unfold not_gt at 1.
  destruct (Ascii.eqb_spec c ">") as [->|_]; cbn [negb]; [reflexivity|].
  rewrite IH. destruct (find_gt t); reflexivity.
Qed.

Lemma tag_rest_match (s : string) :
  tag_rest (chars s) =
  match match_tag s with
  | Some n => Some (chars (string_drop n s))
  | None => None
  end.
Proof.
  destruct s as [|c0 [|c1 t]]; [reflexivity| |].
  - unfold match_tag. rewrite chars_cons, chars_empty. cbn [tag_rest take_while drop_while].
    destruct (Ascii.eqb c0 "<"); reflexivity.
  - unfold match_tag. rewrite !chars_cons.
    cbn [tag_rest take_while drop_while].
    destruct (Ascii.eqb c0 "<"); cbn [andb]; [|reflexivity].
    unfold not_gt at 1 3. destruct (Ascii.eqb c1 ">"); cbn [negb]; [reflexivity|].
    rewrite drop_while_find_gt.
    destruct (find_gt t) as [k|]; [|reflexivity].
    replace (k + 3)%nat with (S (S (S k))) by lia. reflexivity.
Qed.

Lemma match_tag_positive (s : string) (n : nat) :
  match_tag s = Some n -> (1 <= n)%nat.
Proof.
  unfold match_tag. destruct s as [|c0 [|c1 t]]; try discriminate.
  destruct (_ && _); [|discriminate].
  destruct (find_gt t); [|discriminate]. intros H. injection H as <-. lia.
Qed.

(** With one step of fuel for each character, the removal of the
    specification gives what [re.sub] gives. *)
Lemma strip_tags_steps_re_sub (fuel : nat) (s : string) :
  (String.length s <= fuel)%nat ->
  strip_tags_steps fuel (chars s) = chars (re_sub_tags s).
Proof.
  revert s. induction fuel as [|f IH]; intros s H.
  - destruct s; [reflexivity|simpl in H; lia].
  - destruct s as [|c t]; [reflexivity|].
    rewrite chars_cons at 1. cbn [strip_tags_steps]. rewrite <- chars_cons.
    rewrite tag_rest_match.
    destruct (match_tag (String c t)) as [n|] eqn:M.
    + rewrite (re_sub_tags_match _ n M). apply IH.
      pose proof (match_tag_positive _ _ M).
      rewrite length_string_drop. simpl in *. lia.
    + rewrite (re_sub_tags_no_match c t M), chars_cons.
      f_equal. apply IH. simpl in H. lia.
Qed.

Lemma strip_tags_re_sub (s : string) :
  strip_tags (chars s) = chars (re_sub_tags s).
Proof.
  unfold strip_tags. apply strip_tags_steps_re_sub. rewrite length_chars. lia.
Qed.

(** **** The bullet entity *)

Lemma prefix_take (p s : string) :
  String.prefix p s = true <-> take (String.length p) (chars s) = chars p.
Proof.
  revert p. induction s as [|b s IH]; intros [|a p];
    try (cbn; split; congruence).
  cbn [String.prefix String.length]. rewrite !chars_cons. cbn [take].
  destruct (ascii_dec a b) as [->|Hab].
  - rewrite IH. split; congruence.
  - split; [discriminate|]. intros H. congruence.
Qed.

Lemma replace_bullet_steps_str_replace (fuel : nat) (s : string) :
  (String.length s <= fuel)%nat ->
  replace_bullet_steps fuel (chars s) = chars (str_replace "&#x2022;" "*" s).
Proof.
  revert s. induction fuel as [|f IH]; intros s H.
  - destruct s; [reflexivity|simpl in H; lia].
  - destruct s as [|c t]; [reflexivity|].
    rewrite chars_cons at 1. cbn [replace_bullet_steps]. rewrite <- chars_cons.
    destruct (String.prefix "&#x2022;" (String c t)) eqn:P.
    + rewrite bool_decide_true by (apply (prefix_take "&#x2022;"), P).
      rewrite str_replace_match by (discriminate || exact P).
      rewrite chars_append. change (chars "*") with ["*"%char]. cbn [app].
      f_equal. rewrite <- IH.
      * rewrite chars_string_drop. reflexivity.
      * rewrite length_string_drop. simpl in *. lia.
    + rewrite bool_decide_false.
      * rewrite (str_replace_no_match _ _ c t P), chars_cons.
        f_equal. apply IH. simpl in H. lia.
      * intros E. apply (prefix_take "&#x2022;") in E. congruence.
Qed.

Lemma replace_bullet_str_replace (s : string) :
  replace_bullet (chars s) = chars (str_replace "&#x2022;" "*" s).
Proof.
  unfold replace_bullet. apply replace_bullet_steps_str_replace.
  rewrite length_chars. lia.
Qed.

(** **** Whitespace runs *)

Lemma not_space_not_blank (c : ascii) : isspace c = false -> Ascii.eqb c " " = false.
Proof. destruct (Ascii.eqb_spec c " ") as [->|]; [discriminate|reflexivity]. Qed.

(** The collapsed text starts with a space exactly when the text starts
    with whitespace. *)
Lemma re_sub_ws_head (s : string) :
  match chars (re_sub_ws s) with
  | a :: _ => Ascii.eqb a " " = starts_space s
  | [] => starts_space s = false
  end.
Proof.
  induction s as [|c t IH]; [reflexivity|].
  cbn [re_sub_ws starts_space]. destruct (isspace c) eqn:Hc.
  - destruct (starts_space t) eqn:Ht; [|reflexivity].
    destruct (chars (re_sub_ws t)); [discriminate|exact IH].
  - rewrite chars_cons. apply not_space_not_blank, Hc.
Qed.

Lemma collapse_whitespace_re_sub (s : string) :
  collapse_whitespace (chars s) = chars (re_sub_ws s).
Proof.
  unfold collapse_whitespace. induction s as [|c t IH]; [reflexivity|].
  rewrite chars_cons. cbn [fold_right re_sub_ws].
  rewrite IH. pose proof (re_sub_ws_head t) as Hd.
  destruct (isspace c) eqn:Hc; [|reflexivity].
  destruct (chars (re_sub_ws t)) as [|a r] eqn:E.
  - rewrite Hd, chars_cons, E. reflexivity.
  - rewrite Hd. destruct (starts_space t); [exact (eq_sym E)|].
    rewrite chars_cons, E. reflexivity.
Qed.

(** **** Trimming *)

Lemma drop_while_lstrip (s : string) :
  drop_while isspace (chars s) = chars (lstrip s).
Proof.
  induction s as [|c t IH]; [reflexivity|].
  rewrite chars_cons. cbn [drop_while lstrip].
  destruct (isspace c); [exact IH|reflexivity].
Qed.

Lemma drop_while_snoc (l : list ascii) (c : ascii) :
  drop_while isspace (l ++ [c]) =
  match drop_while isspace l with
  | [] => if isspace c then [] else [c]
  | r => r ++ [c]
  end.
Proof.
  induction l as [|a l IH]; [simpl; destruct (isspace c); reflexivity|].
  cbn [app drop_while]. destruct (isspace a); [exact IH|reflexivity].
Qed.

Lemma rev_drop_while_rstrip (s : string) :
  rev (drop_while isspace (rev (chars s))) = chars (rstrip s).
Proof.
  induction s as [|c t IH]; [reflexivity|].
  rewrite chars_cons. cbn [rev rstrip].
  rewrite drop_while_snoc.
  destruct (drop_while isspace (rev (chars t))) as [|a r] eqn:E.
  - cbn [rev] in IH. destruct (rstrip t); [|discriminate].
    destruct (isspace c); reflexivity.
  - rewrite rev_app_distr, IH. destruct (rstrip t) eqn:R; [|reflexivity].
    apply (f_equal (@List.length ascii)) in IH.
    rewrite length_rev in IH. simpl in IH. lia.
Qed.

Lemma trim_strip (s : string) : trim (chars s) = chars (strip s).
Proof.
  unfold trim, strip. rewrite rev_drop_while_rstrip. apply drop_while_lstrip.
Qed.

Lemma text_chars (s : string) : text (chars s) = s.
Proof. apply string_of_list_ascii_of_string. Qed.

(** C9: [content_preview] joins the content blocks with spaces, removes
    the angle-bracket tags, replaces the bullet entity by [*], collapses
    whitespace runs, trims, and truncates to the given length with an
    ellipsis; on the content [<p>Hello&#x2022;world</p>\n\nfoo] with
    length 80 it gives [Hello*world foo]. *)
Theorem content_preview_pipeline :
  (forall (c : card) (maxLen : nat),
     content_preview c (Z.of_nat maxLen) = content_preview_spec c maxLen) /\
  content_preview
    [("content",
      VSeq [SLit ("<p>Hello&#x2022;world</p>" +:+ newline +:+ newline +:+ "foo")])]
    80 = "Hello*world foo".
Proof.
  split; [|reflexivity].
  intros c maxLen.
  unfold content_preview, content_preview_spec.
  assert (E : match match Dict.get "content" c with
                    | Some v => v
                    | None => VStr ""
                    end with
              | VSeq items => join " " (map str items)
              | VScalar x => str x
              end = join_blocks c).
  { unfold join_blocks. rewrite join_blocks_join. unfold content_blocks.
    destruct (Dict.get "content" c) as [[]|]; reflexivity. }
  cbv zeta. rewrite E, collapse_after_strip.
  rewrite strip_tags_re_sub, replace_bullet_str_replace,
    collapse_whitespace_re_sub, trim_strip, text_chars.
  apply slice_truncate.
Qed.

(** Two blocks with tags, whitespace at both ends and a cut: the steps
    of the specification and the source give the same text. *)
Example content_preview_two_blocks :
  let c := [("content",
             VSeq [SLit "  <b>a</b> "; SLit ("b" +:+ newline +:+ " c<br/>  ")])] in
  content_preview_spec c 3 = "a b..." /\ content_preview c 3 = "a b..." /\
  content_preview_spec c 5 = "a b c" /\ content_preview c 5 = "a b c".
Proof. repeat split; reflexivity. Qed.


(** * Further properties of the card operations *)

(** ** Removing, reordering and adding *)

(** X1: for a valid index, [remove_card] returns the card at that index
    and leaves the list without that position: one card shorter, the
    cards before the index in place and the cards behind it moved up by
    one. *)
Theorem remove_card_in_range (cards : list card) (index : Z) :
  0 <= index < len cards ->
  exists c,
    cards !! Z.to_nat index = Some c /\
    remove_card cards index = (Return c, delete (Z.to_nat index) cards) /\
    len (snd (remove_card cards index)) = len cards - 1 /\
    (forall j : nat, (j < Z.to_nat index)%nat ->
       snd (remove_card cards index) !! j = cards !! j) /\
    (forall j : nat, (Z.to_nat index <= j)%nat ->
       snd (remove_card cards index) !! j = cards !! S j).
Proof.
  intros H. destruct (lookup_in_range cards index H) as [c E].
  exists c. split; [exact E|].
  assert (R : remove_card cards index = (Return c, delete (Z.to_nat index) cards)).
  { unfold remove_card. rewrite in_range_true by assumption.
    rewrite (list_pop_in_range _ _ c) by assumption. reflexivity. }
  rewrite R. cbn [snd]. split; [reflexivity|]. split; [|split].
  - apply len_delete. eapply lookup_lt_Some, E.
  - intros j Hj. apply list_lookup_delete_lt, Hj.
  - intros j Hj. apply list_lookup_delete_ge, Hj.
Qed.

Lemma remove_card_in_range_witness :
  remove_card [[("title", VStr "a")]; [("title", VStr "b")]] 0 =
    (Return [("title", VStr "a")], [[("title", VStr "b")]]).
Proof.
  destruct (remove_card_in_range [[("title", VStr "a")]; [("title", VStr "b")]] 0)
    as (c & E & R & _).
  - unfold len; simpl; lia.
  - simpl in E. injection E as <-. exact R.
Defined.

Lemma remove_card_last (cards : list card) (c : card) :
  remove_card (cards ++ [c]) (len cards) = (Return c, cards).
Proof.
  assert (H : 0 <= len cards < len (cards ++ [c])).
  { unfold len. rewrite length_app. simpl. lia. }
  assert (E : (cards ++ [c]) !! Z.to_nat (len cards) = Some c).
  { unfold len. rewrite Nat2Z.id. apply list_lookup_middle. reflexivity. }
  unfold remove_card. rewrite in_range_true by exact H.
  rewrite (list_pop_in_range _ _ c H E).
  unfold len. rewrite Nat2Z.id, delete_middle, app_nil_r. reflexivity.
Qed.

(** X2: removing the card that [add_card] has just appended, at the index
    the list had as its length, returns that card and restores the
    list. *)
Theorem add_then_remove_last (cards : list card)
    (logo title content : string) (center partition : bool) :
  remove_card (snd (add_card cards logo title content center partition))
              (len cards)
  = (Return (fst (add_card cards logo title content center partition)), cards).
Proof. unfold add_card. cbn [fst snd]. apply remove_card_last. Qed.

Lemma list_insert_at_Permutation {A} (l : list A) (i : Z) (x : A) :
  list_insert_at l i x ≡ₚ x :: l.
Proof.
  unfold list_insert_at. rewrite <- Permutation_middle.
  rewrite take_drop. reflexivity.
Qed.

(** X3: whatever the indices, [reorder_card] neither loses nor duplicates
    a card: the list it leaves is a permutation of the list it was
    given. *)
Theorem reorder_card_Permutation (cards : list card) (from_idx to_idx : Z) :
  snd (reorder_card cards from_idx to_idx) ≡ₚ cards.
Proof.
  unfold reorder_card.
  destruct (negb _); [reflexivity|]. destruct (negb _); [reflexivity|].
  destruct (list_pop cards from_idx) as [[c cards']|] eqn:P; [|reflexivity].
  cbn [snd]. rewrite list_insert_at_Permutation.
  unfold list_pop in P. destruct (_ && _); [|discriminate].
  destruct (cards !! _) eqn:E; [|discriminate].
  injection P as <- <-. symmetry. apply delete_Permutation, E.
Qed.

(** X4: for valid indices, moving a card from [from_idx] to [to_idx] and
    then back from [to_idx] to [from_idx] restores the list. *)
Theorem reorder_card_back (cards : list card) (from_idx to_idx : Z) :
  0 <= from_idx < len cards -> 0 <= to_idx < len cards ->
  reorder_card (snd (reorder_card cards from_idx to_idx)) to_idx from_idx
  = (Return tt, cards).
Proof.
  intros Hf Ht. destruct (lookup_in_range cards from_idx Hf) as [c E].
  rewrite (reorder_card_in_range cards from_idx to_idx c Hf Ht E). cbn [snd].
  set (d := delete (Z.to_nat from_idx) cards).
  assert (Hd : List.length d = (List.length cards - 1)%nat).
  { unfold d. rewrite length_delete; [reflexivity|]. rewrite E. eauto. }
  assert (Hpos : (0 < List.length cards)%nat).
  { apply lookup_lt_Some in E. lia. }
  assert (Hto : (Z.to_nat to_idx <= List.length d)%nat).
  { unfold len in Ht. lia. }
  assert (Htk : List.length (take (Z.to_nat to_idx) d) = Z.to_nat to_idx).
  { rewrite length_take. lia. }
  set (l' := take (Z.to_nat to_idx) d ++ c :: drop (Z.to_nat to_idx) d).
  assert (Hl' : len l' = len cards).
  { unfold l', len. rewrite length_app, Htk. cbn [List.length].
    rewrite length_drop. lia. }
  assert (E' : l' !! Z.to_nat to_idx = Some c).
  { unfold l'. rewrite lookup_app_r by lia. rewrite Htk.
    replace (_ - _)%nat with O by lia. reflexivity. }
  rewrite (reorder_card_in_range l' to_idx from_idx c) by (rewrite ?Hl'; assumption).
  assert (Del : delete (Z.to_nat to_idx) l' = d).
  { pose proof (delete_middle (take (Z.to_nat to_idx) d)
                  (drop (Z.to_nat to_idx) d) c) as D.
    rewrite Htk in D. unfold l'. rewrite D. apply take_drop. }
  rewrite Del. unfold d. rewrite reinsert_same_place by exact E. reflexivity.
Qed.

Lemma reorder_card_back_witness :
  reorder_card
    (snd (reorder_card [[("title", VStr "a")]; [("title", VStr "b")]; [("title", VStr "c")]] 0 2))
    2 0
  = (Return tt, [[("title", VStr "a")]; [("title", VStr "b")]; [("title", VStr "c")]]).
Proof.
  apply (reorder_card_back
           [[("title", VStr "a")]; [("title", VStr "b")]; [("title", VStr "c")]] 0 2);
    unfold len; simpl; lia.
Defined.

(** X5: the keys of the card that [add_card] builds come in the fixed
    order logo, center, partition, title, content, each present by its
    rule. *)
Theorem add_card_key_order (cards : list card)
    (logo title content : string) (center partition : bool) :
  Dict.keys (fst (add_card cards logo title content center partition)) =
  (if String.eqb logo "" then [] else ["logo"])
  ++ (if center then ["center"] else [])
  ++ (if partition then ["partition"] else [])
  ++ (if String.eqb title "" then [] else ["title"])
  ++ ["content"].
Proof.
  unfold add_card, truthy. cbn [fst].
  destruct (String.eqb logo ""), center, partition, (String.eqb title ""),
    (String.eqb content ""); reflexivity.
Qed.

(** ** Updating *)

Lemma set_get_id (k : string) (v : value) (d : Dict.t) :
  Dict.get k d = Some v -> Dict.set k v d = d.
Proof.
  induction d as [|[k0 v0] d IH]; simpl; [discriminate|].
  destruct (String.eqb_spec k k0) as [->|Hk].
  - intros H. injection H as ->. reflexivity.
  - intros H. rewrite IH by exact H. reflexivity.
Qed.

Lemma del_if_present_absent (k : string) (d : Dict.t) :
  Dict.get k d = None -> (if Dict.contains k d then Dict.del k d else d) = d.
Proof. intros H. apply contains_get in H. rewrite H. reflexivity. Qed.

Lemma update_fields_idempotent (c : card)
    (logo title content : option string) (center partition : option bool) :
  update_fields (update_fields c logo title content center partition)
                logo title content center partition
  = update_fields c logo title content center partition.
Proof.
  set (c' := update_fields c logo title content center partition).
  assert (G : forall k, Dict.get k c' = _) by
    (intros k; apply (update_fields_get c k logo title content center partition)).
  unfold update_fields at 1.
  destruct logo as [l|], title as [t|], content as [s|],
    center as [[]|], partition as [[]|];
    try destruct (truthy t) eqn:Ht;
    repeat first
      [ rewrite (set_get_id _ _ c') by (rewrite G; cbn; rewrite ?Ht; reflexivity)
      | rewrite (del_if_present_absent _ c')
          by (rewrite G; cbn; rewrite ?Ht; reflexivity) ];
    reflexivity.
Qed.

(** X6: applying the same [update_card] call a second time changes
    nothing more, for any index and any arguments. *)
Theorem update_card_idempotent (cards : list card) (index : Z)
    (logo title content : option string) (center partition : option bool) :
  let once := snd (update_card cards index logo title content center partition) in
  snd (update_card once index logo title content center partition) = once.
Proof.
  cbn zeta. destruct (decide (0 <= index < len cards)) as [H|H].
  - destruct (lookup_in_range cards index H) as [c E].
    assert (Hi : (Z.to_nat index < List.length cards)%nat)
      by (eapply lookup_lt_Some, E).
    rewrite (update_card_in_range cards index c) by assumption. cbn [snd].
    rewrite (update_card_in_range _ index
               (update_fields c logo title content center partition)).
    + cbn [snd].
      rewrite list_insert_insert_eq, update_fields_idempotent. reflexivity.
    + unfold len in *. rewrite length_insert. exact H.
    + apply list_lookup_insert_eq, Hi.
  - assert (E : (0 <=? index) && (index <? len cards) = false)
      by (apply in_range_false; lia).
    unfold update_card. rewrite !E. cbn [negb snd]. rewrite E. reflexivity.
Qed.

(** X7: for a valid index, [update_card] with every field left at its
    default succeeds and leaves the list as it was. *)
Theorem update_card_no_fields (cards : list card) (index : Z) :
  0 <= index < len cards ->
  update_card cards index None None None None None = (Return tt, cards).
Proof.
  intros H. destruct (lookup_in_range cards index H) as [c E].
  rewrite (update_card_in_range cards index c) by assumption.
  cbn [update_fields]. rewrite list_insert_id by exact E. reflexivity.
Qed.

Lemma update_card_no_fields_witness :
  update_card [[("title", VStr "a")]] 0 None None None None None
  = (Return tt, [[("title", VStr "a")]]).
Proof. apply update_card_no_fields. unfold len; simpl; lia. Defined.

(** X8: the cards stay dictionaries.  If no card of the list has a key
    twice, the same holds of the list left by any call of [add_card],
    [update_card], [remove_card] or [reorder_card]. *)
Theorem distinct_keys_preserved (cards : list card) :
  Forall (fun c => NoDup (Dict.keys c)) cards ->
  (forall logo title content center partition,
     Forall (fun c => NoDup (Dict.keys c))
       (snd (add_card cards logo title content center partition))) /\
  (forall index logo title content center partition,
     Forall (fun c => NoDup (Dict.keys c))
       (snd (update_card cards index logo title content center partition))) /\
  (forall index,
     Forall (fun c => NoDup (Dict.keys c)) (snd (remove_card cards index))) /\
  (forall from_idx to_idx,
     Forall (fun c => NoDup (Dict.keys c))
       (snd (reorder_card cards from_idx to_idx))).
Proof.
  intros H. repeat split.
  - intros.
    pose proof (NoDup_keys_new_card cards logo title content center partition) as Hc.
    unfold add_card in *. cbn [fst snd] in *.
    apply Forall_app. split; [exact H|].
    apply Forall_cons. split; [exact Hc|constructor].
  - intros. unfold update_card.
    destruct (negb _); [exact H|].
    destruct (cards !! _) eqn:L; [|exact H]. cbn [snd].
    apply Forall_insert; [exact H|].
    apply NoDup_keys_update_fields.
    eapply Forall_lookup_1 in L; [exact L|exact H].
  - intros. unfold remove_card.
    destruct (_ && _); [|exact H].
    unfold list_pop. destruct (_ && _); [|exact H].
    destruct (cards !! _); [|exact H]. cbn [snd]. apply Forall_delete, H.
  - intros. unfold reorder_card.
    destruct (negb _); [exact H|]. destruct (negb _); [exact H|].
    unfold list_pop. destruct (_ && _); [|exact H].
    destruct (cards !! _) eqn:L; [|exact H]. cbn [snd].
    unfold list_insert_at. apply Forall_app. split.
    + apply Forall_take, Forall_delete, H.
    + apply Forall_cons. split.
      * eapply Forall_lookup_1 in L; [exact L|exact H].
      * apply Forall_drop, Forall_delete, H.
Qed.

Lemma distinct_keys_preserved_witness :
  Forall (fun c => NoDup (Dict.keys c))
    (snd (update_card [[("title", VStr "a"); ("content", VSeq [SLit "x"])]]
            0 (Some "l.png") (Some "") None (Some true) None)).
Proof.
  apply (distinct_keys_preserved [[("title", VStr "a"); ("content", VSeq [SLit "x"])]]).
  apply (bool_decide_unpack _). vm_compute. exact I.
Defined.

(** * Plain dictionaries *)

Lemma set_fresh (k : string) (v : value) (d : Dict.t) :
  ~ In k (Dict.keys d) -> Dict.set k v d = d ++ [(k, v)].
Proof.
  unfold Dict.keys. induction d as [|[k0 v0] d IH]; simpl; [reflexivity|].
  intros H. destruct (String.eqb_spec k k0) as [->|_]; [tauto|].
  rewrite IH by tauto. reflexivity.
Qed.

Lemma get_app_fresh (k : string) (d1 d2 : Dict.t) :
  ~ In k (Dict.keys d1) -> Dict.get k (d1 ++ d2) = Dict.get k d2.
Proof.
  unfold Dict.keys. induction d1 as [|[k0 v0] d1 IH]; simpl; [reflexivity|].
  intros H. destruct (String.eqb_spec k k0) as [->|_]; [tauto|].
  apply IH. tauto.
Qed.

Lemma keys_map_plain (d : Dict.t) :
  Dict.keys (map (fun kv => (kv.1, plain_value kv.2)) d) = Dict.keys d.
Proof.
  unfold Dict.keys. rewrite map_map. apply map_ext. intros [k v]. reflexivity.
Qed.

Lemma get_map_plain (k : string) (d : Dict.t) :
  Dict.get k (map (fun kv => (kv.1, plain_value kv.2)) d)
  = plain_value <$> Dict.get k d.
Proof.
  induction d as [|[k0 v0] d IH]; simpl; [reflexivity|].
  destruct (String.eqb k k0); [reflexivity|exact IH].
Qed.

(** The loop of [card_to_dict] over the keys still to visit, started on
    the plain copy of the entries already visited. *)
Lemma card_to_dict_loop (c done rest : Dict.t) :
  c = done ++ rest -> NoDup (Dict.keys c) ->
  fold_left
    (fun d key =>
       match Dict.get key c with
       | Some val => Dict.set key (plain_value val) d
       | None => d
       end)
    (Dict.keys rest) (map (fun kv => (kv.1, plain_value kv.2)) done)
  = map (fun kv => (kv.1, plain_value kv.2)) c.
Proof.
  revert done. induction rest as [|[k v] rest IH]; intros done -> Hnd.
  - rewrite app_nil_r. reflexivity.
  - assert (Hk : ~ In k (Dict.keys done)).
    { unfold Dict.keys in *. rewrite map_app in Hnd.
      apply NoDup_app in Hnd as (_ & Hd & _).
      intros Hin. apply (Hd k); [apply list_elem_of_In, Hin|].
      simpl. left. }
    cbn [Dict.keys map fold_left fst].
    rewrite (get_app_fresh k done) by exact Hk.
    cbn [Dict.get]. rewrite String.eqb_refl.
    rewrite set_fresh by (rewrite keys_map_plain; exact Hk).
    specialize (IH (done ++ [(k, v)])).
    rewrite map_app in IH. cbn [map fst snd] in IH.
    rewrite <- app_assoc in IH. cbn [app] in IH.
    apply IH; [reflexivity|exact Hnd].
Qed.

Lemma card_to_dict_map (c : card) :
  NoDup (Dict.keys c) ->
  card_to_dict c = map (fun kv => (kv.1, plain_value kv.2)) c.
Proof. intros H. apply (card_to_dict_loop c [] c); [reflexivity|exact H]. Qed.

Lemma str_plain_items (items : list scalar) :
  map str (map (fun item => SStr (str item)) items) = map str items.
Proof. rewrite map_map. apply map_ext. intros x. reflexivity. Qed.

Lemma plain_value_idempotent (v : value) :
  plain_value (plain_value v) = plain_value v.
Proof.
  destruct v as [x|items]; [reflexivity|]. simpl. f_equal.
  rewrite map_map. apply map_ext. intros x. reflexivity.
Qed.

(** X9: [card_to_dict] keeps the keys of a card in their order; under
    each key it keeps a scalar as it is and turns the items of a list
    into plain strings. *)
Theorem card_to_dict_entries (c : card) :
  NoDup (Dict.keys c) ->
  Dict.keys (card_to_dict c) = Dict.keys c /\
  forall k,
    Dict.get k (card_to_dict c) =
    match Dict.get k c with
    | Some (VSeq items) => Some (VSeq (map (fun item => SStr (str item)) items))
    | Some (VScalar x) => Some (VScalar x)
    | None => None
    end.
Proof.
  intros H. rewrite (card_to_dict_map c H). split.
  - apply keys_map_plain.
  - intros k. rewrite get_map_plain.
    destruct (Dict.get k c) as [[x|items]|]; reflexivity.
Qed.

Lemma card_to_dict_entries_witness :
  Dict.get "content"
    (card_to_dict [("logo", VStr "a.png"); ("content", VSeq [SLit "x"; SBool true])])
  = Some (VSeq [SStr "x"; SStr "True"]).
Proof.
  apply (card_to_dict_entries
           [("logo", VStr "a.png"); ("content", VSeq [SLit "x"; SBool true])]).
  apply (bool_decide_unpack _). vm_compute. exact I.
Defined.

(** X10: the preview of a card is the same before and after
    [card_to_dict]. *)
Theorem content_preview_card_to_dict (c : card) (max_len : Z) :
  NoDup (Dict.keys c) ->
  content_preview (card_to_dict c) max_len = content_preview c max_len.
Proof.
  intros H. rewrite (card_to_dict_map c H).
  unfold content_preview. rewrite get_map_plain.
  destruct (Dict.get "content" c) as [[x|items]|]; cbn [fmap option_fmap option_map plain_value];
    rewrite ?str_plain_items; reflexivity.
Qed.

Lemma content_preview_card_to_dict_witness :
  content_preview (card_to_dict [("content", VSeq [SLit "<b>a</b>  b"])]) 80 = "a b".
Proof.
  rewrite (content_preview_card_to_dict [("content", VSeq [SLit "<b>a</b>  b"])] 80).
  - reflexivity.
  - apply (bool_decide_unpack _). vm_compute. exact I.
Defined.

(** X11: [cards_to_dicts] gives one dictionary per card, and converting
    a second time changes nothing. *)
Theorem cards_to_dicts_idempotent (cards : list card) :
  Forall (fun c => NoDup (Dict.keys c)) cards ->
  List.length (cards_to_dicts cards) = List.length cards /\
  cards_to_dicts (cards_to_dicts cards) = cards_to_dicts cards.
Proof.
  intros H. unfold cards_to_dicts. split; [apply length_map|].
  rewrite map_map. apply map_ext_in. intros c Hc.
  assert (N : NoDup (Dict.keys c)).
  { rewrite Forall_forall in H. apply H, list_elem_of_In, Hc. }
  rewrite (card_to_dict_map c N).
  rewrite card_to_dict_map by (rewrite keys_map_plain; exact N).
  rewrite map_map. apply map_ext. intros [k v]. cbn [fst snd].
  rewrite plain_value_idempotent. reflexivity.
Qed.

Lemma cards_to_dicts_idempotent_witness :
  cards_to_dicts (cards_to_dicts [[("content", VSeq [SLit "x"])]])
  = cards_to_dicts [[("content", VSeq [SLit "x"])]].
Proof.
  apply (cards_to_dicts_idempotent [[("content", VSeq [SLit "x"])]]).
  apply (bool_decide_unpack _). vm_compute. exact I.
Defined.

(** * Image listing *)

(** X12: [list_images] gives the names of the regular files of the image
    directory, each as often as it is listed, in ascending order, and
    nothing when the directory does not exist; a name that only
    belongs to a subdirectory is never listed. *)
Theorem list_images_sorted_files (assets_img : option (list dir_entry)) :
  StronglySorted String.le (list_images assets_img) /\
  (assets_img = None -> list_images assets_img = []) /\
  (forall entries, assets_img = Some entries ->
     list_images assets_img ≡ₚ map entry_name (List.filter is_file entries) /\
     forall name,
       In name (list_images assets_img) <->
       exists e, In e entries /\ is_file e = true /\ entry_name e = name).
Proof.
  unfold list_images, sorted. split; [|split].
  - destruct assets_img; [apply StronglySorted_merge_sort; apply _|constructor].
  - intros ->. reflexivity.
  - intros entries ->.
    assert (P : merge_sort String.le (map entry_name (List.filter is_file entries))
                ≡ₚ map entry_name (List.filter is_file entries))
      by apply merge_sort_Permutation.
    split; [exact P|].
    intros name. rewrite <- !list_elem_of_In, P, list_elem_of_In.
    rewrite in_map_iff. split.
    + intros (e & <- & He). apply filter_In in He as [He Hf]. eauto.
    + intros (e & He & Hf & <-). exists e. split; [reflexivity|].
      apply filter_In. auto.
Qed.

(** * Shapes of the preview *)

(** ** No tag is left *)

Lemma find_gt_tail (c : ascii) (t : string) :
  find_gt (String c t) = None -> find_gt t = None.
Proof.
  simpl. destruct (Ascii.eqb c ">"); [discriminate|].
  destruct (find_gt t); [discriminate|reflexivity].
Qed.

Lemma match_tag_no_gt (s : string) : find_gt s = None -> match_tag s = None.
Proof.
  intros H. destruct s as [|c0 [|c1 t]]; try reflexivity.
  unfold match_tag. destruct (_ && _); [|reflexivity].
  apply find_gt_tail, find_gt_tail in H. rewrite H. reflexivity.
Qed.

Lemma re_sub_tags_no_gt (s : string) : find_gt s = None -> re_sub_tags s = s.
Proof.
  induction s as [|c t IH]; intros H; [reflexivity|].
  rewrite re_sub_tags_no_match by (apply match_tag_no_gt, H).
  rewrite IH by (apply (find_gt_tail c), H). reflexivity.
Qed.

Lemma match_tag_not_lt (c : ascii) (t : string) :
  c <> "<"%char -> match_tag (String c t) = None.
Proof.
  intros H. unfold match_tag. destruct t; [reflexivity|].
  destruct (Ascii.eqb_spec c "<"); [contradiction|reflexivity].
Qed.

(** A character the scan keeps does not start a tag in the result
    either. *)
Lemma match_tag_after_scan (c : ascii) (t : string) :
  match_tag (String c t) = None ->
  match_tag (String c (re_sub_tags t)) = None.
Proof.
  intros H. destruct t as [|c1 t']; [exact H|].
  unfold match_tag in H.
  destruct (Ascii.eqb_spec c "<") as [->|Hc]; cbn [andb] in H.
  - destruct (Ascii.eqb_spec c1 ">") as [->|Hc1]; cbn [negb] in H.
    + rewrite re_sub_tags_no_match by (apply match_tag_not_lt; discriminate).
      reflexivity.
    + destruct (find_gt t') eqn:F; [discriminate|].
      rewrite re_sub_tags_no_gt.
      * unfold match_tag. rewrite F.
        destruct (_ && _); reflexivity.
      * simpl. destruct (Ascii.eqb_spec c1 ">"); [contradiction|].
        rewrite F. reflexivity.
  - apply match_tag_not_lt, Hc.
Qed.

Lemma tag_free_scan (s : string) (skip : nat) :
  tag_free (re_sub_tags_from skip s) = true.
Proof.
  revert skip. induction s as [|c t IH]; intros skip; [reflexivity|].
  cbn [re_sub_tags_from]. destruct skip as [|k]; [|apply IH].
  destruct (match_tag (String c t)) eqn:M; [apply IH|].
  cbn [tag_free]. fold (re_sub_tags t).
  rewrite (match_tag_after_scan c t M). apply IH.
Qed.

Lemma re_sub_tags_tag_free (s : string) : tag_free s = true -> re_sub_tags s = s.
Proof.
  induction s as [|c t IH]; [reflexivity|].
  cbn [tag_free]. destruct (match_tag (String c t)) eqn:M; [discriminate|].
  intros H. rewrite re_sub_tags_no_match by exact M.
  rewrite IH by exact H. reflexivity.
Qed.

(** X13: what [re.sub] leaves when it removes the tags holds no further
    match of the tag pattern, so that removing the tags a second time
    changes nothing. *)
Theorem re_sub_tags_leaves_no_tag (s : string) :
  tag_free (re_sub_tags s) = true /\
  re_sub_tags (re_sub_tags s) = re_sub_tags s.
Proof.
  assert (H : tag_free (re_sub_tags s) = true) by apply tag_free_scan.
  split; [exact H|]. apply re_sub_tags_tag_free, H.
Qed.

(** ** Whitespace of the preview *)

Lemma starts_space_re_sub_ws (s : string) :
  starts_space (re_sub_ws s) = starts_space s.
Proof.
  induction s as [|c t IH]; [reflexivity|].
  cbn [re_sub_ws starts_space]. destruct (isspace c) eqn:Hc.
  - destruct (starts_space t) eqn:Ht; [exact IH|reflexivity].
  - cbn [starts_space]. exact Hc.
Qed.

Lemma single_spaced_re_sub_ws (s : string) : single_spaced (re_sub_ws s) = true.
Proof.
  induction s as [|c t IH]; [reflexivity|].
  cbn [re_sub_ws]. destruct (isspace c) eqn:Hc.
  - destruct (starts_space t) eqn:Ht; [exact IH|].
    cbn [single_spaced]. rewrite starts_space_re_sub_ws, Ht, IH. reflexivity.
  - cbn [single_spaced]. rewrite Hc, IH. reflexivity.
Qed.

Lemma starts_space_lstrip (s : string) : starts_space (lstrip s) = false.
Proof.
  induction s as [|c t IH]; [reflexivity|].
  cbn [lstrip]. destruct (isspace c) eqn:Hc; [exact IH|exact Hc].
Qed.

Lemma starts_space_substring (k : nat) (s : string) :
  starts_space s = false -> starts_space (String.substring 0 k s) = false.
Proof. destruct s, k; simpl; auto. Qed.

Lemma single_spaced_substring (k : nat) (s : string) :
  single_spaced s = true -> single_spaced (String.substring 0 k s) = true.
Proof.
  revert k. induction s as [|c t IH]; intros [|k] H; try reflexivity.
  cbn [String.substring single_spaced] in *.
  apply andb_true_iff in H as [H1 H2]. rewrite (IH k H2), andb_true_r.
  destruct (isspace c); [|reflexivity].
  apply andb_true_iff in H1 as [H1 H3]. rewrite H1. cbn [andb].
  apply negb_true_iff in H3. rewrite (starts_space_substring k t H3). reflexivity.
Qed.

Lemma starts_space_ellipsis (s : string) :
  starts_space (s +:+ "...") = starts_space s.
Proof. destruct s; reflexivity. Qed.

Lemma single_spaced_ellipsis (s : string) :
  single_spaced s = true -> single_spaced (s +:+ "...") = true.
Proof.
  induction s as [|c t IH]; intros H; [reflexivity|].
  change (single_spaced (String c (t +:+ "...")) = true).
  cbn [single_spaced] in *.
  apply andb_true_iff in H as [H1 H2].
  rewrite starts_space_ellipsis, H1, (IH H2). reflexivity.
Qed.

(** X14: a preview is a single line of words: it holds no newline, tab
    or other whitespace but the plain space, never two spaces in a row,
    and does not start with a space, whatever the card and the length
    asked for. *)
Theorem content_preview_single_spaced (c : card) (max_len : Z) :
  single_spaced (content_preview c max_len) = true /\
  starts_space (content_preview c max_len) = false.
Proof.
  unfold content_preview. cbv zeta.
  set (t := re_sub_ws _).
  assert (H1 : single_spaced t = true) by apply single_spaced_re_sub_ws.
  assert (H2 : starts_space t = false).
  { unfold t. rewrite starts_space_re_sub_ws. apply starts_space_lstrip. }
  destruct (slen t >? max_len); [|split; assumption].
  unfold slice_to. split.
  - apply single_spaced_ellipsis, single_spaced_substring, H1.
  - rewrite starts_space_ellipsis. apply starts_space_substring, H2.
Qed.

(** ** Length of the preview *)

Lemma length_substring_le (k : nat) (s : string) :
  (String.length (String.substring 0 k s) <= k)%nat.
Proof.
  revert k. induction s as [|c t IH]; intros [|k]; simpl; try lia.
  specialize (IH k). lia.
Qed.

Lemma length_append (s1 s2 : string) :
  String.length (s1 +:+ s2) = (String.length s1 + String.length s2)%nat.
Proof. induction s1 as [|c t IH]; simpl; [reflexivity|]. rewrite IH. reflexivity. Qed.

(** X15: for a length that is not negative, the preview is never longer
    than that length plus the three characters of the ellipsis. *)
Theorem content_preview_length (c : card) (max_len : Z) :
  0 <= max_len -> slen (content_preview c max_len) <= max_len + 3.
Proof.
  intros H. unfold content_preview. cbv zeta.
  set (t := re_sub_ws _).
  destruct (Z.gtb_spec (slen t) max_len) as [Hgt|Hle]; [|lia].
  unfold slice_to, slen in *.
  destruct (Z.ltb_spec max_len 0); [lia|].
  rewrite length_append. cbn [String.length].
  pose proof (length_substring_le
                (Z.to_nat (Z.min max_len (Z.of_nat (String.length t)))) t).
  lia.
Qed.

Lemma content_preview_length_witness :
  slen (content_preview [("content", VSeq [SLit "one two three four"])] 7) <= 7 + 3.
Proof. apply content_preview_length. lia. Defined.

(** ** The preview and the other fields *)

(** X16: the preview depends on the content alone: an [update_card]
    call that gives no content leaves the preview of every card of the
    list as it was, whatever the index and whatever it does to the
    logo, the title and the flags. *)
Theorem content_preview_update_other_fields (cards : list card) (index : Z)
    (logo title : option string) (center partition : option bool) (max_len : Z) :
  map (fun c => content_preview c max_len)
      (snd (update_card cards index logo title None center partition))
  = map (fun c => content_preview c max_len) cards.
Proof.
  unfold update_card. destruct (negb _); [reflexivity|].
  destruct (cards !! Z.to_nat index) as [c|] eqn:E; [|reflexivity]. cbn [snd].
  assert (P : content_preview
                (update_fields c logo title None center partition) max_len
              = content_preview c max_len).
  { unfold content_preview. rewrite update_fields_get. reflexivity. }
  change (map ?f ?l) with (f <$> l). rewrite list_fmap_insert, P.
  apply list_insert_id. rewrite list_lookup_fmap, E. reflexivity.
Qed.

(** * Shared cards and cards by value *)

(** X17: [update_card] changes one card object, the one the list holds
    at the index; every other object of the store is as before, and on
    an index out of range the store is as before. *)
Theorem update_card_changes_one_object (h : Obj.store) (cards : list Obj.ref)
    (index : Z)
    (logo title content : option string) (center partition : option bool)
    (r : Obj.ref) :
  cards !! Z.to_nat index <> Some r \/ ~ (0 <= index < len cards) ->
  snd (Obj.update_card h cards index logo title content center partition) r = h r.
Proof.
  intros H. unfold Obj.update_card.
  destruct ((0 <=? index) && (index <? len cards)) eqn:B; [|reflexivity].
  destruct (cards !! Z.to_nat index) as [r0|] eqn:E; [|reflexivity]. simpl.
  apply fn_lookup_insert_ne. intros ->.
  destruct H as [H|H]; [congruence|]. apply H. lia.
Qed.

Lemma update_card_changes_one_object_witness :
  snd (Obj.update_card (fun _ => [("title", VStr "a")]) [0%nat; 1%nat] 0
         None (Some "b") None None None) 1%nat
  = [("title", VStr "a")].
Proof.
  apply (update_card_changes_one_object (fun _ => [("title", VStr "a")])
           [0%nat; 1%nat] 0 None (Some "b") None None None 1%nat).
  left. vm_compute. discriminate.
Defined.

(** X18: on a list that holds no card object twice, the update in place
    shows the list that the update by value gives, and raises when it
    raises. *)
Theorem update_card_by_value (h : Obj.store) (cards : list Obj.ref)
    (index : Z)
    (logo title content : option string) (center partition : option bool) :
  NoDup cards ->
  let out := Obj.update_card h cards index logo title content center partition in
  let out' := update_card (Obj.view h cards) index
                logo title content center partition in
  fst out = fst out' /\ Obj.view (snd out) cards = snd out'.
Proof.
  intros N. unfold Obj.update_card, update_card.
  assert (L : len (Obj.view h cards) = len cards)
    by (unfold len, Obj.view; rewrite length_map; reflexivity).
  rewrite L. destruct (negb _); [split; reflexivity|].
  assert (K : Obj.view h cards !! Z.to_nat index = h <$> cards !! Z.to_nat index)
    by apply list_lookup_fmap.
  rewrite K.
  destruct (cards !! Z.to_nat index) as [r|] eqn:E; [|split; reflexivity].
  cbn [fmap option_fmap option_map fst snd]. split; [reflexivity|].
  apply list_eq. intros j. unfold Obj.view. rewrite list_lookup_fmap.
  destruct (decide (j = Z.to_nat index)) as [->|Hj].
  - rewrite E. cbn [fmap option_fmap option_map].
    rewrite list_lookup_insert_eq
      by (rewrite length_map; eapply lookup_lt_Some, E).
    f_equal. apply fn_lookup_insert.
  - rewrite list_lookup_insert_ne by congruence. rewrite list_lookup_fmap.
    destruct (cards !! j) as [r'|] eqn:Ej; [|reflexivity].
    cbn [fmap option_fmap option_map]. f_equal.
    apply fn_lookup_insert_ne.
    intros ->. apply Hj. eapply NoDup_lookup; eassumption.
Qed.

Lemma update_card_by_value_witness :
  Obj.view
    (snd (Obj.update_card (fun r => [("title", VStr (if r is O then "a" else "b"))])
            [0%nat; 1%nat] 1 None (Some "c") None None None))
    [0%nat; 1%nat]
  = [[("title", VStr "a")]; [("title", VStr "c")]].
Proof.
  apply (update_card_by_value (fun r => [("title", VStr (if r is O then "a" else "b"))])
           [0%nat; 1%nat] 1 None (Some "c") None None None).
  apply (bool_decide_unpack _). vm_compute. exact I.
Defined.
